(** * ParticleSimulator2D: the simulation loop of [src/Game/main.cpp]

    A shallow embedding of the tick-level code of the particle simulator:
    the global entity vector, [processInput], the seeded scene and the
    fixed-timestep loop of [main], together with the entity interface of
    [Entities/Entity.h].

    Numbers.  The program computes with C++ [float] (entity fields) and
    [double] (cursor position, clock).  Both are kept abstract behind the
    interface [Num]; every statement about the code of [main.cpp] is proved
    for an arbitrary implementation of that interface.  The implementation
    given is the arithmetic the program runs on: IEEE 754 binary32 and
    binary64 with round-to-nearest-even. *)

From Stdlib Require Import ZArith SpecFloat Lia.
From Stdlib Require String.
From stdpp Require Import base list numbers.

(** ** Floating-point interface *)

Class Num (F : Type) := {
  ofZ : Z -> F;                 (* conversion from [int] *)
  fneg : F -> F;
  fadd : F -> F -> F;
  fsub : F -> F -> F;
  fmul : F -> F -> F;
  fdiv : F -> F -> F;
  fsqrt : F -> F;
  flt : F -> F -> bool;         (* [a < b] *)
  fle : F -> F -> bool;         (* [a <= b] *)
}.

(** A decimal literal [m / 10^k] such as [0.8f] or [0.05f].  A C++ literal is
    the correctly rounded value of the decimal; for [m] and [10^k] exactly
    representable one correctly rounded division gives the same number. *)
Definition lit {F} `{Num F} (m : Z) (k : nat) : F :=
  fdiv (ofZ m) (ofZ (10 ^ Z.of_nat k)).

(** [a >= b] of C++. *)
Definition fge {F} `{Num F} (a b : F) : bool := fle b a.

(** [a < a] is false; it holds on IEEE floats, NaN included. *)
Class OrderLaws (F : Type) `{Num F} : Prop := {
  flt_irrefl : forall a : F, flt a a = false;
}.

(** Narrowing conversion [double -> float]. *)
Class Narrow (D F : Type) := narrow : D -> F.

(** *** IEEE 754 instances

    C++ [float] and [double] as binary32 and binary64 numbers, with the
    operations of [SpecFloat] (round to nearest, ties to even). *)

Module IEEE.

Definition prec32 : Z := 24.
Definition emax32 : Z := 128.
Definition prec64 : Z := 53.
Definition emax64 : Z := 1024.

Record float := mkFloat { float_bits : spec_float }.
Record double := mkDouble { double_bits : spec_float }.

#[global] Instance float_Num : Num float := {|
  ofZ z := mkFloat (binary_normalize prec32 emax32 z 0 false);
  fneg a := mkFloat (SFopp (float_bits a));
  fadd a b := mkFloat (SFadd prec32 emax32 (float_bits a) (float_bits b));
  fsub a b := mkFloat (SFsub prec32 emax32 (float_bits a) (float_bits b));
  fmul a b := mkFloat (SFmul prec32 emax32 (float_bits a) (float_bits b));
  fdiv a b := mkFloat (SFdiv prec32 emax32 (float_bits a) (float_bits b));
  fsqrt a := mkFloat (SFsqrt prec32 emax32 (float_bits a));
  flt a b := SFltb (float_bits a) (float_bits b);
  fle a b := SFleb (float_bits a) (float_bits b);
|}.

#[global] Instance double_Num : Num double := {|
  ofZ z := mkDouble (binary_normalize prec64 emax64 z 0 false);
  fneg a := mkDouble (SFopp (double_bits a));
  fadd a b := mkDouble (SFadd prec64 emax64 (double_bits a) (double_bits b));
  fsub a b := mkDouble (SFsub prec64 emax64 (double_bits a) (double_bits b));
  fmul a b := mkDouble (SFmul prec64 emax64 (double_bits a) (double_bits b));
  fdiv a b := mkDouble (SFdiv prec64 emax64 (double_bits a) (double_bits b));
  fsqrt a := mkDouble (SFsqrt prec64 emax64 (double_bits a));
  flt a b := SFltb (double_bits a) (double_bits b);
  fle a b := SFleb (double_bits a) (double_bits b);
|}.

#[global] Instance double_to_float : Narrow double float := fun d =>
  match double_bits d with
  | S754_finite s m e => mkFloat (binary_round prec32 emax32 s m e)
  | other => mkFloat other
  end.

End IEEE.

(** ** Data model ([Vector2.h], [Common.h], [Entities/Entity.h]) *)

Inductive EntityType := CIRCLE | BOX.

Definition EntityType_eqb (a b : EntityType) : bool :=
  match a, b with
  | CIRCLE, CIRCLE | BOX, BOX => true
  | _, _ => false
  end.

#[global] Instance EntityType_eq_dec : EqDecision EntityType.
Proof. solve_decision. Defined.

Section Model.

Context {F D : Type} {NF : Num F} {ND : Num D} {ND2F : Narrow D F}.

Record Vector2 := mkVector2 { x : F; y : F }.

(** The fields that the subclasses add: [EntityCircle::radius], and
    [EntityBox::width], [EntityBox::length]. *)
Inductive Shape :=
| ShapeCircle (radius : F)
| ShapeBox (width len : F).

(** [class Entity].  [kinematic] is the flag behind [isKinematic()] and
    [setKinematic()], which [main.cpp] calls; [Entity.h] declares
    [usePhysics], initialised to [true], in its place.  The [vao] is used
    for rendering only. *)
Record Entity := mkEntity {
  position : Vector2;
  velocity : Vector2;
  force : Vector2;
  rotation : F;
  mass : F;
  color : F * F * F;
  type : EntityType;
  kinematic : bool;
  bounciness : F;
  friction : F;
  deactivation : F;
  shape : Shape;
}.

Definition isKinematic (e : Entity) : bool := kinematic e.

Definition setKinematic (b : bool) (e : Entity) : Entity :=
  mkEntity (position e) (velocity e) (force e) (rotation e) (mass e)
    (color e) (type e) b (bounciness e) (friction e) (deactivation e)
    (shape e).

Definition set_position (p : Vector2) (e : Entity) : Entity :=
  mkEntity p (velocity e) (force e) (rotation e) (mass e)
    (color e) (type e) (kinematic e) (bounciness e) (friction e)
    (deactivation e) (shape e).

Definition set_velocity (v : Vector2) (e : Entity) : Entity :=
  mkEntity (position e) v (force e) (rotation e) (mass e)
    (color e) (type e) (kinematic e) (bounciness e) (friction e)
    (deactivation e) (shape e).

Definition set_force (f : Vector2) (e : Entity) : Entity :=
  mkEntity (position e) (velocity e) f (rotation e) (mass e)
    (color e) (type e) (kinematic e) (bounciness e) (friction e)
    (deactivation e) (shape e).

Definition set_rotation (r : F) (e : Entity) : Entity :=
  mkEntity (position e) (velocity e) (force e) r (mass e)
    (color e) (type e) (kinematic e) (bounciness e) (friction e)
    (deactivation e) (shape e).

Definition set_color (c : F * F * F) (e : Entity) : Entity :=
  mkEntity (position e) (velocity e) (force e) (rotation e) (mass e)
    c (type e) (kinematic e) (bounciness e) (friction e)
    (deactivation e) (shape e).

(** Constants of [Common.h] and the values the constructors of
    [Entity.cpp] give to the fields that [Entity.h] leaves without an
    initialiser.  None of them is in the sources at hand, so they are
    parameters of the development. *)
Record Config := mkConfig {
  GRAVITY : F;
  TICKS_PER_SECOND : D;
  SCREEN_WIDTH : Z;
  SCREEN_HEIGHT : Z;
  circleMass : F;
  circleRadius : F;
  circleColor : F * F * F;
  boxMass : F;
  boxWidth : F;
  boxLength : F;
  boxColor : F * F * F;
}.

Variable cfg : Config.

Definition zeroVector : Vector2 := mkVector2 (ofZ 0) (ofZ 0).

(** Modelled from the spec: the constructor [EntityCircle(Vector2, Mesh* )]
    of [Entity.cpp].  The entity starts at the given position, at rest,
    with no accumulated force, non-kinematic ([Entity.h] initialises
    [usePhysics] to [true], and [main.cpp] makes an entity kinematic by an
    explicit [setKinematic(true)]), with the material coefficients that
    [Entity.h] initialises ([0.85f], [0.05f], [0.05f]) and the shape kind
    of its class.  The mesh is used for rendering only. *)
Definition newEntityCircle (pos : Vector2) : Entity := {|
  position := pos;
  velocity := zeroVector;
  force := zeroVector;
  rotation := ofZ 0;
  mass := circleMass cfg;
  color := circleColor cfg;
  type := CIRCLE;
  kinematic := false;
  bounciness := lit 85 2;
  friction := lit 5 2;
  deactivation := lit 5 2;
  shape := ShapeCircle (circleRadius cfg);
|}.

(** Modelled from the spec: the constructor [EntityBox(Vector2, Mesh* )]
    of [Entity.cpp], as [newEntityCircle] with the box fields. *)
Definition newEntityBox (pos : Vector2) : Entity := {|
  position := pos;
  velocity := zeroVector;
  force := zeroVector;
  rotation := ofZ 0;
  mass := boxMass cfg;
  color := boxColor cfg;
  type := BOX;
  kinematic := false;
  bounciness := lit 85 2;
  friction := lit 5 2;
  deactivation := lit 5 2;
  shape := ShapeBox (boxWidth cfg) (boxLength cfg);
|}.

(** ** The process state of [main.cpp] *)

(** Calls that [main] makes into the entity, input and window layers, in
    the order in which they are made. *)
Inductive Call :=
| CallInputUpdate
| CallProcessInput
| CallUpdate (i : nat)
| CallCheckCollisions (i : nat)
| CallRender (i : nat)
| CallSwapBuffers
| CallPollEvents.

(** The globals: [entities], the close flag of the window, and the
    history of calls (a ghost field, never read by the program). *)
Record World := mkWorld {
  entities : list Entity;
  windowShouldClose : bool;
  calls : list Call;
}.

(** What [processInput] reads from the window and from [input] on one
    tick, after [input->Update()]. *)
Record TickInput := mkTickInput {
  cursorX : D;
  cursorY : D;
  mouseButton1 : bool;    (* getMouseButtonPressed(GLFW_MOUSE_BUTTON_1) *)
  mouseButton2 : bool;    (* getMouseButtonPressed(GLFW_MOUSE_BUTTON_2) *)
  keyEscape : bool;
  keyW : bool;
  keyS : bool;
  keyA : bool;
  keyD : bool;
  keyRight : bool;
  keyLeft : bool;
}.

(** *** A state monad over [World] *)

Definition Sim (A : Type) : Type := World -> A * World.

Definition ret {A} (a : A) : Sim A := fun w => (a, w).

Definition bind {A B} (c : Sim A) (k : A -> Sim B) : Sim B :=
  fun w => let (a, w') := c w in k a w'.

Definition exec {A} (c : Sim A) (w : World) : World := snd (c w).

Local Notation "c1 ;; c2" := (bind c1 (fun _ => c2))
  (at level 100, c2 at level 200, right associativity).

Definition skip : Sim unit := ret tt.

Definition when (b : bool) (c : Sim unit) : Sim unit :=
  if b then c else skip.

(** [entities.push_back(e)] *)
Definition push_back (e : Entity) : Sim unit := fun w =>
  (tt, mkWorld (entities w ++ [e]) (windowShouldClose w) (calls w)).

(** An update through the pointer [entities[i]]. *)
Definition modifyEntity (i : nat) (f : Entity -> Entity) : Sim unit :=
  fun w =>
    (tt, mkWorld (alter f i (entities w)) (windowShouldClose w) (calls w)).

(** An update of any of the objects that [entities] points to. *)
Definition modifyEntities (f : list Entity -> list Entity) : Sim unit :=
  fun w => (tt, mkWorld (f (entities w)) (windowShouldClose w) (calls w)).

Definition glfwSetWindowShouldClose (b : bool) : Sim unit := fun w =>
  (tt, mkWorld (entities w) b (calls w)).

Definition record (c : Call) : Sim unit := fun w =>
  (tt, mkWorld (entities w) (windowShouldClose w) (calls w ++ [c])).

(** [for (int i = start; i < entities.size(); i++) body(i)].  The bound is
    read again before every iteration; [fuel] bounds the number of
    iterations. *)
Fixpoint forLoop (fuel i : nat) (body : nat -> Sim unit) : Sim unit :=
  fun w =>
    match fuel with
    | O => (tt, w)
    | S fuel' =>
        if (i <? length (entities w))%nat
        then let (_, w') := body i w in forLoop fuel' (S i) body w'
        else (tt, w)
    end.

(** The loops of [main.cpp] run from [0] and their bodies never resize
    [entities], so [entities.size()] iterations are all there are
    ([forEntities_complete] below). *)
Definition forEntities (body : nat -> Sim unit) : Sim unit :=
  fun w => forLoop (length (entities w)) 0 body w.

(** ** [processInput] *)

Definition set_x (v : F) (p : Vector2) : Vector2 := mkVector2 v (y p).
Definition set_y (v : F) (p : Vector2) : Vector2 := mkVector2 (x p) v.

(** The [movement] vector that the W/S and A/D keys select. *)
Definition movementOf (inp : TickInput) : Vector2 :=
  let movement := mkVector2 (ofZ 0) (ofZ 0) in
  let movement :=
    if keyW inp then set_y (ofZ 5) movement
    else if keyS inp then set_y (fneg (ofZ 5)) movement
    else movement in
  if keyA inp then set_x (fneg (ofZ 5)) movement
  else if keyD inp then set_x (ofZ 5) movement
  else movement.

(** The [rotation] that the RIGHT/LEFT keys select. *)
Definition rotationOf (inp : TickInput) : F :=
  if keyRight inp then ofZ 1
  else if keyLeft inp then fneg (ofZ 1)
  else ofZ 0.

(** The body of the loop over [entities], for one entity. *)
Definition applyInput (movement : Vector2) (rot : F) (e : Entity) : Entity :=
  let e :=
    if negb (isKinematic e) then
      let e :=
        set_force
          (set_y (fadd (y (force e))
                    (fmul (fmul (y movement) (fneg (GRAVITY cfg))) (mass e)))
             (force e)) e in
      set_force
        (set_x (fadd (x (force e)) (fmul (x movement) (mass e))) (force e)) e
    else e in
  if EntityType_eqb (type e) BOX
  then set_rotation (fadd (rotation e) rot) e
  else e.

(** The cursor position as [processInput] computes it:
    [ypos = SCREEN_HEIGHT - ypos], then the conversion to [Vector2]. *)
Definition cursorPosition (inp : TickInput) : Vector2 :=
  let xpos := cursorX inp in
  let ypos := fsub (ofZ (SCREEN_HEIGHT cfg)) (cursorY inp) in
  mkVector2 (narrow xpos) (narrow ypos).

Definition processInput (inp : TickInput) : Sim unit :=
  (if mouseButton1 inp then
     push_back (newEntityCircle (cursorPosition inp))
   else if mouseButton2 inp then
     let ent := newEntityCircle (cursorPosition inp) in
     let ent := setKinematic true ent in
     push_back ent
   else skip) ;;
  when (keyEscape inp) (glfwSetWindowShouldClose true) ;;
  let movement := movementOf inp in
  let rot := rotationOf inp in
  forEntities (fun i => modifyEntity i (applyInput movement rot)).

(** ** The entity physics of [Entity.cpp]

    [Entity.cpp] and [Vector2.h] are not among the sources at hand.  The
    definitions of this part follow the design document, sections 3, 4.1,
    4.2 and 7. *)

(** Modelled from the spec: the [Vector2] algebra of [Vector2.h] (add,
    scale, dot, length, normalize), component by component. *)
Definition vadd (a b : Vector2) : Vector2 :=
  mkVector2 (fadd (x a) (x b)) (fadd (y a) (y b)).

Definition vsub (a b : Vector2) : Vector2 :=
  mkVector2 (fsub (x a) (x b)) (fsub (y a) (y b)).

Definition vscale (k : F) (a : Vector2) : Vector2 :=
  mkVector2 (fmul (x a) k) (fmul (y a) k).

Definition vdiv (a : Vector2) (k : F) : Vector2 :=
  mkVector2 (fdiv (x a) k) (fdiv (y a) k).

Definition vdot (a b : Vector2) : F :=
  fadd (fmul (x a) (x b)) (fmul (y a) (y b)).

Definition vlength (a : Vector2) : F := fsqrt (vdot a a).

(** Distance between two points: the length of their difference. *)
Definition distance (a b : Vector2) : F := vlength (vsub b a).

Definition fabs (a : F) : F := if flt a (ofZ 0) then fneg a else a.
Definition fmin (a b : F) : F := if flt b a then b else a.
Definition fmax (a b : F) : F := if flt a b then b else a.

(** What the design document leaves open: the bound of the defensive clamp
    on the velocity, how the bounciness of two entities is combined, the
    unit vector used when a normal has length zero, and the cosmetic
    reaction of the per-shape [Collision] hook (new rotation and colour of
    the entity the hook is called on). *)
Record Physics := mkPhysics {
  clampVelocity : Vector2 -> Vector2;
  combineBounciness : F -> F -> F;
  defaultNormal : Vector2;
  Collision : Entity -> Entity -> F * (F * F * F);
}.

Variable phys : Physics.

(** A unit vector along [v], or the default normal for a vector of length
    zero. *)
Definition normalize (v : Vector2) : Vector2 :=
  let len := vlength v in
  if fle len (ofZ 0) then defaultNormal phys else vdiv v len.

(** Modelled from the spec: [Entity::Update()] (section 4.1).  A kinematic
    entity skips the update.  Otherwise: acceleration = force / mass,
    velocity += acceleration, damping by [1 - friction], the clamp, rest
    snapping below [deactivation], position += velocity, force reset.
    Gravity is not added here: it is part of [force] at call time. *)
Definition Entity_Update (e : Entity) : Entity :=
  if kinematic e then e
  else
    let acceleration := vdiv (force e) (mass e) in
    let v := vadd (velocity e) acceleration in
    let v := vscale (fsub (ofZ 1) (friction e)) v in
    let v := clampVelocity phys v in
    let v := if flt (vlength v) (deactivation e) then zeroVector else v in
    let e := set_velocity v e in
    let e := set_position (vadd (position e) v) e in
    set_force zeroVector e.

(** A contact: collision normal and penetration depth. *)
Definition Contact : Type := Vector2 * F.

(** Modelled from the spec: the circle-circle test (section 4.2): collision
    iff the distance between the centers is less than the sum of the radii;
    depth = (r1 + r2) - distance; normal from the center of A to the center
    of B. *)
Definition collideCircleCircle (pa : Vector2) (ra : F) (pb : Vector2) (rb : F)
  : option Contact :=
  let d := distance pa pb in
  if flt d (fadd ra rb)
  then Some (normalize (vsub pb pa), fsub (fadd ra rb) d)
  else None.

(** The point of the box with center [pb] and half-extents [hw], [hl] that
    is nearest to [p]. *)
Definition nearestPoint (p pb : Vector2) (hw hl : F) : Vector2 :=
  mkVector2 (fmax (fsub (x pb) hw) (fmin (x p) (fadd (x pb) hw)))
            (fmax (fsub (y pb) hl) (fmin (y p) (fadd (y pb) hl))).

(** Modelled from the spec: the circle-box test (section 4.2), for an
    axis-aligned box: collision iff the distance from the center of the
    circle to the nearest point of the box is less than the radius; normal
    from the nearest point to the center of the circle.  The depth, which
    the document gives for circles only, is radius - distance. *)
Definition collideCircleBox (pc : Vector2) (r : F) (pb : Vector2) (hw hl : F)
  : option Contact :=
  let q := nearestPoint pc pb hw hl in
  let d := distance q pc in
  if flt d r then Some (normalize (vsub pc q), fsub r d) else None.

Definition signOf (a : F) : F := if flt a (ofZ 0) then fneg (ofZ 1) else ofZ 1.

(** Modelled from the spec: the box-box test (section 4.2): overlap on both
    axes; normal on the axis of least penetration, towards the other box. *)
Definition collideBoxBox (pa : Vector2) (wa la : F) (pb : Vector2) (wb lb : F)
  : option Contact :=
  let dx := fsub (x pb) (x pa) in
  let dy := fsub (y pb) (y pa) in
  let ox := fsub (fadd wa wb) (fabs dx) in
  let oy := fsub (fadd la lb) (fabs dy) in
  if flt (ofZ 0) ox && flt (ofZ 0) oy then
    if flt ox oy
    then Some (mkVector2 (signOf dx) (ofZ 0), ox)
    else Some (mkVector2 (ofZ 0) (signOf dy), oy)
  else None.

(** Dispatch on the pair of shapes; the fields of a box are its
    half-extents. *)
Definition detect (a b : Entity) : option Contact :=
  match shape a, shape b with
  | ShapeCircle ra, ShapeCircle rb =>
      collideCircleCircle (position a) ra (position b) rb
  | ShapeCircle ra, ShapeBox wb lb =>
      collideCircleBox (position a) ra (position b) wb lb
  | ShapeBox wa la, ShapeCircle rb =>
      collideCircleBox (position b) rb (position a) wa la
  | ShapeBox wa la, ShapeBox wb lb =>
      collideBoxBox (position a) wa la (position b) wb lb
  end.

(** Inverse mass: zero for a kinematic entity, [1 / mass] otherwise. *)
Definition invMass (e : Entity) : F :=
  if kinematic e then ofZ 0 else fdiv (ofZ 1) (mass e).

(** Steps 1 to 4 of the resolution: positional correction in proportion to
    the inverse masses, then the impulse unless the bodies separate. *)
Definition applyImpulse (n : Vector2) (d : F) (a b : Entity)
  : Entity * Entity :=
  let invA := invMass a in
  let invB := invMass b in
  let total := fadd invA invB in
  let a := set_position
             (vsub (position a) (vscale (fdiv (fmul d invA) total) n)) a in
  let b := set_position
             (vadd (position b) (vscale (fdiv (fmul d invB) total) n)) b in
  let vRel := vdot (vsub (velocity b) (velocity a)) n in
  if flt (ofZ 0) vRel then (a, b)
  else
    let e := combineBounciness phys (bounciness a) (bounciness b) in
    let j := fdiv (fmul (fneg (fadd (ofZ 1) e)) vRel) total in
    let a := set_velocity
               (vsub (velocity a) (vscale invA (vscale j n))) a in
    let b := set_velocity
               (vadd (velocity b) (vscale invB (vscale j n))) b in
    (a, b).

(** Step 5: the [Collision] hook changes cosmetic state only. *)
Definition runHook (self other : Entity) : Entity :=
  let (rot, col) := Collision phys self other in
  set_color col (set_rotation rot self).

(** Modelled from the spec: the resolution of one contact between A and B
    (sections 4.2 and 7).  A pair of two kinematic entities has total
    inverse mass zero and gets neither correction nor impulse. *)
Definition resolve (n : Vector2) (d : F) (a b : Entity) : Entity * Entity :=
  let (a1, b1) :=
    if kinematic a && kinematic b then (a, b) else applyImpulse n d a b in
  (runHook a1 b1, runHook b1 a1).

(** The test of [entities[i]] against [entities[j]]. *)
Definition checkPair (i j : nat) (ents : list Entity) : list Entity :=
  if (i =? j)%nat then ents
  else
    match ents !! i, ents !! j with
    | Some a, Some b =>
        match detect a b with
        | Some (n, d) =>
            let (a', b') := resolve n d a b in
            <[j := b']> (<[i := a']> ents)
        | None => ents
        end
    | _, _ => ents
    end.

(** Modelled from the spec: [Entity::CheckCollisions(allEntities)] called
    on [entities[i]] (section 4.2): the calling entity is tested against
    every other entity of the collection, in the order of the collection. *)
Definition Entity_CheckCollisions (i : nat) (ents : list Entity)
  : list Entity :=
  foldl (fun es j => checkPair i j es) ents (seq 0 (length ents)).

(** ** One tick of the simulation *)

(** [Entity::Update()] and [Entity::CheckCollisions(std::vector<Entity*>)]
    are defined in [Entity.cpp]; the loop of [main] is modelled for any
    implementation of them.  [Update] works on the entity it is called on.
    [CheckCollisions i] is the call on [entities[i]]; it receives a copy of
    the vector of pointers, so it may change any entity of the collection
    (the result lists the entities after the call). *)
Variable Update : Entity -> Entity.
Variable CheckCollisions : nat -> list Entity -> list Entity.

(** The body of [while (deltaTime >= 1.0)] without the decrement.
    [input->Update()] refreshes the state that [processInput] then reads;
    what it reads is the [TickInput] of the tick. *)
Definition tick (inp : TickInput) : Sim unit :=
  record CallInputUpdate ;;
  record CallProcessInput ;;
  processInput inp ;;
  forEntities (fun i => record (CallUpdate i) ;; modifyEntity i Update) ;;
  forEntities (fun i =>
    record (CallCheckCollisions i) ;; modifyEntities (CheckCollisions i)).

(** ** [main] *)

(** What the environment supplies to a run: the outcome of the window and
    GLAD initialisation, the results of the successive calls of [rand()]
    and [glfwGetTime()], whether the two arguments of a [Vector2(...)]
    constructor call are evaluated left to right (C++ leaves the order to the
    compiler), the input seen on each tick, and whether [glfwPollEvents()]
    of a frame delivers a close request. *)
Record Env := mkEnv {
  windowCreated : bool;
  gladLoaded : bool;
  rand : nat -> Z;
  argsLeftToRight : bool;
  glfwGetTime : nat -> D;
  tickInput : nat -> TickInput;
  closeRequested : nat -> bool;
}.

Variable env : Env.

(** The values of two calls of [rand()] in the argument list of one
    constructor call, starting at call number [k]: the value used in the
    first argument and the value used in the second. *)
Definition randPair (k : nat) : Z * Z :=
  if argsLeftToRight env then (rand env k, rand env (S k))
  else (rand env (S k), rand env k).

(** [Vector2(rand() % SCREEN_WIDTH * 0.8f, rand() % SCREEN_HEIGHT - 200)] *)
Definition boxSeedPosition (k : nat) : Vector2 :=
  let (r1, r2) := randPair k in
  mkVector2 (fmul (ofZ (Z.rem r1 (SCREEN_WIDTH cfg))) (lit 8 1))
            (ofZ (Z.rem r2 (SCREEN_HEIGHT cfg) - 200)).

(** [Vector2(rand() % SCREEN_WIDTH - 20, rand() % SCREEN_HEIGHT - 20)] *)
Definition circleSeedPosition (k : nat) : Vector2 :=
  let (r1, r2) := randPair k in
  mkVector2 (ofZ (Z.rem r1 (SCREEN_WIDTH cfg) - 20))
            (ofZ (Z.rem r2 (SCREEN_HEIGHT cfg) - 20)).

(** [for (int i = lo; i < lo + n; i++) body(i)] with constant bounds. *)
Fixpoint forRange (n lo : nat) (body : nat -> Sim unit) : Sim unit :=
  match n with
  | O => skip
  | S n' => body lo ;; forRange n' (S lo) body
  end.

(** The "Spawn Entities" block of [main]. *)
Definition spawnEntities : Sim unit :=
  push_back (newEntityBox (boxSeedPosition 0)) ;;
  forRange 2 0 (fun i =>
    push_back (newEntityCircle (circleSeedPosition (2 + 2 * i)))).

(** The globals at program start. *)
Definition emptyWorld : World := mkWorld [] false [].

(** The locals of [main] that the loop uses, with counters of the ticks and
    frames done so far (ghost fields that index the environment). *)
Record MainState := mkMainState {
  world : World;
  lastTime : D;
  deltaTime : D;
  ticksDone : nat;
  framesDone : nat;
}.

(** The state on entry to the render and logic loop. *)
Definition initState : MainState := {|
  world := exec spawnEntities emptyWorld;
  lastTime := glfwGetTime env 0;
  deltaTime := ofZ 0;
  ticksDone := 0;
  framesDone := 0;
|}.

(** One iteration of [while (deltaTime >= 1.0)]. *)
Definition stepOnce (s : MainState) : MainState := {|
  world := exec (tick (tickInput env (ticksDone s))) (world s);
  lastTime := lastTime s;
  deltaTime := fsub (deltaTime s) (ofZ 1);
  ticksDone := S (ticksDone s);
  framesDone := framesDone s;
|}.

(** [while (deltaTime >= 1.0) { ... deltaTime--; }]; [None] when [fuel]
    iterations do not bring the accumulator below one. *)
Fixpoint stepping (fuel : nat) (s : MainState) : option MainState :=
  if fge (deltaTime s) (ofZ 1) then
    match fuel with
    | O => None
    | S fuel' => stepping fuel' (stepOnce s)
    end
  else Some s.

(** Modelled from the spec: [Entity::Render] of [Entity.cpp] reads the
    transform of the entity and changes nothing in it. *)
Definition renderAll : Sim unit :=
  forEntities (fun i => record (CallRender i)).

(** The time measurement at the head of a frame. *)
Definition measureTime (s : MainState) : MainState :=
  let nowTime := glfwGetTime env (S (framesDone s)) in {|
  world := world s;
  lastTime := nowTime;
  deltaTime :=
    fadd (deltaTime s)
         (fmul (fsub nowTime (lastTime s)) (TICKS_PER_SECOND cfg));
  ticksDone := ticksDone s;
  framesDone := framesDone s;
|}.

(** The rest of a frame after the ticks: render, swap, poll. *)
Definition present (s : MainState) : MainState := {|
  world :=
    exec (renderAll ;;
          record CallSwapBuffers ;;
          record CallPollEvents ;;
          when (closeRequested env (framesDone s))
               (glfwSetWindowShouldClose true))
         (world s);
  lastTime := lastTime s;
  deltaTime := deltaTime s;
  ticksDone := ticksDone s;
  framesDone := S (framesDone s);
|}.

(** One iteration of [while (!glfwWindowShouldClose(window))]. *)
Definition frame (fuel : nat) (s : MainState) : option MainState :=
  match stepping fuel (measureTime s) with
  | Some s' => Some (present s')
  | None => None
  end.

(** The render and logic loop, for at most [frames] frames. *)
Fixpoint mainLoop (frames fuel : nat) (s : MainState) : option MainState :=
  if windowShouldClose (world s) then Some s
  else
    match frames with
    | O => None
    | S frames' =>
        match frame fuel s with
        | Some s' => mainLoop frames' fuel s'
        | None => None
        end
    end.

(** [main]: the exit code and the globals when the loop is left, before the
    cleanup that deletes the entities; [None] when the bounds on frames and
    ticks per frame are exhausted. *)
Definition main (frames fuel : nat) : option (Z * World) :=
  if negb (windowCreated env) then Some ((-1)%Z, emptyWorld)
  else if negb (gladLoaded env) then Some ((-1)%Z, emptyWorld)
  else
    match mainLoop frames fuel initState with
    | Some s => Some (0%Z, world s)
    | None => None
    end.

End Model.

(** * Vocabulary of the statements *)

Section Vocabulary.

Context {F D : Type} {NF : Num F} {ND : Num D} {ND2F : Narrow D F}.
Variable cfg : @Config F D.

(** The entities that the mouse buttons of one tick create, as they are
    when [push_back] receives them. *)
Definition spawned (inp : TickInput) : list (@Entity F) :=
  if mouseButton1 inp then [newEntityCircle cfg (cursorPosition cfg inp)]
  else if mouseButton2 inp then
    [setKinematic true (newEntityCircle cfg (cursorPosition cfg inp))]
  else [].

(** The calls of one tick over [n] entities. *)
Definition tickCalls (n : nat) : list Call :=
  [CallInputUpdate; CallProcessInput]
  ++ map CallUpdate (seq 0 n)
  ++ map CallCheckCollisions (seq 0 n).

(** [CheckCollisions] called on every entity in turn, each call on the
    whole collection as the calls before it left it. *)
Definition checkAll (CheckCollisions : nat -> list (@Entity F) -> list Entity)
  (ents : list Entity) : list Entity :=
  foldl (fun es i => CheckCollisions i es) ents (seq 0 (length ents)).

(** The entities after one tick, from the entities before it and the
    input of the tick. *)
Definition tickEntities (Update : @Entity F -> Entity)
  (CheckCollisions : nat -> list (@Entity F) -> list Entity)
  (inp : TickInput) (ents : list Entity) : list Entity :=
  checkAll CheckCollisions
    (Update <$> (applyInput cfg (movementOf inp) (rotationOf inp)
                   <$> (ents ++ spawned inp))).

(** The entities after [n] ticks of a run: the seeded scene, then one
    [tickEntities] per tick with the input of that tick. *)
Fixpoint entitiesAfter (Update : @Entity F -> Entity)
  (CheckCollisions : nat -> list (@Entity F) -> list Entity)
  (env : @Env D) (n : nat) : list Entity :=
  match n with
  | O => entities (world (initState cfg env))
  | S n' =>
      tickEntities Update CheckCollisions (tickInput env n')
        (entitiesAfter Update CheckCollisions env n')
  end.

(** The entities of a run are those of the seeded scene advanced by the
    ticks done so far. *)
Definition onTrack (Update : @Entity F -> Entity)
  (CheckCollisions : nat -> list (@Entity F) -> list Entity)
  (env : @Env D) (s : @MainState F D) : Prop :=
  entities (world s) = entitiesAfter Update CheckCollisions env (ticksDone s).

(** A run of ticks, one per input of the list, with the physics of
    [Entity.cpp]. *)
Definition runTicks (phys : @Physics F) (inps : list TickInput) (w : World)
  : World :=
  foldl (fun w' inp =>
           exec (tick cfg (Entity_Update phys) (Entity_CheckCollisions phys)
                   inp) w')
        w inps.

(** [e'] is a later state of [e] that kept the kinematic flag and, for a
    kinematic entity, position and velocity. *)
Definition anchored (e e' : @Entity F) : Prop :=
  kinematic e' = kinematic e /\
  (kinematic e = true ->
   position e' = position e /\ velocity e' = velocity e).

(** Every entity of [l] is still in [l'], at its index, anchored. *)
Definition anchoredList (l l' : list (@Entity F)) : Prop :=
  forall (p : nat) (e : Entity),
    l !! p = Some e -> exists e', l' !! p = Some e' /\ anchored e e'.

(** Modelled from the spec: the acceleration that [Update()] computes from
    the accumulated force, [force / mass] (section 4.1); the body of
    [Update()] is in [Entity.cpp], which is not among the sources. *)
Definition acceleration (e : @Entity F) : Vector2 :=
  vdiv (force e) (mass e).

(** The accumulator after [k] decrements. *)
Definition decrements (k : nat) (a : D) : D :=
  Nat.iter k (fun d => fsub d (ofZ 1)) a.

(** The number of entities of a given shape kind. *)
Definition countType (t : EntityType) (ents : list (@Entity F)) : nat :=
  length (filter (fun e => type e = t) ents).

End Vocabulary.

(** * Sample data on IEEE floats

    Values for the constants of [Common.h] (a 800 x 600 window, 60 ticks
    per second, gravity [9.8f]) and for the constructor defaults, used to
    run the definitions. *)

Module Demo.

Import IEEE.

Definition cfg : @Config float double := {|
  GRAVITY := lit 98 1;
  TICKS_PER_SECOND := ofZ 60;
  SCREEN_WIDTH := 800;
  SCREEN_HEIGHT := 600;
  circleMass := ofZ 1;
  circleRadius := ofZ 10;
  circleColor := (ofZ 1, ofZ 0, ofZ 0);
  boxMass := ofZ 1;
  boxWidth := ofZ 20;
  boxLength := ofZ 20;
  boxColor := (ofZ 0, ofZ 0, ofZ 1);
|}.

(** The cursor at window coordinates (100, 200), nothing pressed. *)
Definition idle : @TickInput double :=
  mkTickInput (ofZ 100) (ofZ 200)
    false false false false false false false false false.

(** Both mouse buttons pressed on the same tick. *)
Definition bothButtons : @TickInput double :=
  mkTickInput (ofZ 100) (ofZ 200)
    true true false false false false false false false.

Definition primaryClick : @TickInput double :=
  mkTickInput (ofZ 100) (ofZ 200)
    true false false false false false false false false.

Definition secondaryClick : @TickInput double :=
  mkTickInput (ofZ 100) (ofZ 200)
    false true false false false false false false false.

(** W, D and RIGHT held. *)
Definition keysHeld : @TickInput double :=
  mkTickInput (ofZ 100) (ofZ 200)
    false false false true false false true true false.

Definition ball : @Entity float :=
  newEntityCircle cfg (mkVector2 (ofZ 50) (ofZ 300)).

Definition anchor : @Entity float :=
  setKinematic true (newEntityCircle cfg (mkVector2 (ofZ 400) (ofZ 100))).

Definition crate : @Entity float :=
  newEntityBox cfg (mkVector2 (ofZ 200) (ofZ 100)).

Definition fixedCrate : @Entity float :=
  setKinematic true (newEntityBox cfg (mkVector2 (ofZ 600) (ofZ 50))).

(** A scene with a free ball, a kinematic ball, a free box and a kinematic
    box. *)
Definition scene : @World float :=
  mkWorld [ball; anchor; crate; fixedCrate] false [].

(** No clamp, the smaller bounciness, the x axis as default normal, and a
    hook that leaves the entity as it is. *)
Definition phys : @Physics float := {|
  clampVelocity := fun v => v;
  combineBounciness := fmin;
  defaultNormal := mkVector2 (ofZ 1) (ofZ 0);
  Collision := fun self _ => (rotation self, color self);
|}.

Definition Update : @Entity float -> @Entity float := Entity_Update phys.

Definition CheckCollisions
  : nat -> list (@Entity float) -> list (@Entity float) :=
  Entity_CheckCollisions phys.

(** S held on the first tick, a primary click on the second, nothing
    afterwards. *)
Definition inputAt (t : nat) : @TickInput double :=
  match t with
  | 0 => mkTickInput (ofZ 100) (ofZ 200)
           false false false false true false false false false
  | 1 => primaryClick
  | _ => idle
  end.

(** A run at 20 frames per second (three ticks per frame) that is closed
    during its first frame. *)
Definition slowFrames : @Env double := {|
  windowCreated := true;
  gladLoaded := true;
  rand := fun k => (1000 + 37 * Z.of_nat k)%Z;
  argsLeftToRight := true;
  glfwGetTime := fun k => fdiv (ofZ (Z.of_nat k)) (ofZ 20);
  tickInput := inputAt;
  closeRequested := fun k => (k =? 0)%nat;
|}.

(** A run at 60 frames per second (one tick per frame) that is closed
    during its third frame. *)
Definition fastFrames : @Env double := {|
  windowCreated := true;
  gladLoaded := true;
  rand := fun k => (1000 + 37 * Z.of_nat k)%Z;
  argsLeftToRight := true;
  glfwGetTime := fun k => fdiv (ofZ (Z.of_nat k)) (ofZ 60);
  tickInput := inputAt;
  closeRequested := fun k => (k =? 2)%nat;
|}.

(** Two circles of radius 10 whose centers are 20 apart, and a third that
    overlaps the first. *)
Definition touchingA : @Entity float :=
  newEntityCircle cfg (mkVector2 (ofZ 0) (ofZ 0)).

Definition touchingB : @Entity float :=
  newEntityCircle cfg (mkVector2 (ofZ 20) (ofZ 0)).

Definition overlapping : @Entity float :=
  newEntityCircle cfg (mkVector2 (ofZ 6) (ofZ 8)).

(** A circle of radius 10 whose center is 12 to the right of and 16 above
    the center of [touchingA]: the centers are 20 apart. *)
Definition diagonal : @Entity float :=
  newEntityCircle cfg (mkVector2 (ofZ 12) (ofZ 16)).



(** A ball that overlaps a kinematic box below it. *)
Definition floorBall : @Entity float :=
  newEntityCircle cfg (mkVector2 (ofZ 50) (ofZ 105)).

Definition floor : @Entity float :=
  setKinematic true (newEntityBox cfg (mkVector2 (ofZ 50) (ofZ 80))).

Definition floorScene : @World float := mkWorld [floorBall; floor] false [].

(** Three ticks: W held, then nothing. *)
Definition floorInputs : list (@TickInput double) :=
  [mkTickInput (ofZ 0) (ofZ 0)
     false false false true false false false false false;
   idle; idle].






(** A kinematic circle at [(-0, 0)] and a free circle that overlaps it
    from the left. *)
Definition postAtMinusZero : @Entity float :=
  setKinematic true
    (newEntityCircle cfg (mkVector2 (fneg (ofZ 0)) (ofZ 0))).

Definition leftBall : @Entity float :=
  newEntityCircle cfg (mkVector2 (ofZ (-5)) (ofZ 0)).

Definition minusZeroScene : @World float :=
  mkWorld [postAtMinusZero; leftBall] false [].

End Demo.

(** * The meshes of [prepareCircleModel] and [prepareBoxModel] *)

(** The two vectors that the functions hand to [new Mesh(vertices,
    indices)]: coordinates, two per vertex, and [GLuint] indices, three per
    triangle. *)
Record MeshData {F : Type} := mkMeshData {
  vertices : list F;
  indices : list Z;
}.

Arguments MeshData : clear implicits.

(** [unsigned int] arithmetic wraps modulo [2^32]. *)
Definition wrap32 (z : Z) : Z := z mod 2 ^ 32.

Section Meshes.

Context {F : Type} {NF : Num F}.

(** [cosf], [sinf] and [atanf] of the C library. *)
Variable cosf sinf atanf : F -> F.

(** [TRIANGLE_RESOLUTION] of [Common.h], as the [unsigned int] it is
    compared with. *)
Variable TRIANGLE_RESOLUTION : Z.

(** [float pi = 4 * atanf(1.0f)] *)
Definition circle_pi : F := fmul (ofZ 4) (atanf (ofZ 1)).

(** [2 * pi / TRIANGLE_RESOLUTION], the step of [theta]. *)
Definition thetaStep : F :=
  fdiv (fmul (ofZ 2) circle_pi) (ofZ TRIANGLE_RESOLUTION).

(** [for (i = 0; i <= TRIANGLE_RESOLUTION; i++) { ... }] of
    [prepareCircleModel], from the state [i], [theta], [vertices],
    [indices]; [None] when [fuel] iterations do not end the loop. *)
Fixpoint circleLoop (fuel : nat) (i : Z) (theta : F) (vs : list F)
  (ids : list Z) : option (MeshData F) :=
  if (i <=? TRIANGLE_RESOLUTION)%Z then
    match fuel with
    | O => None
    | S fuel' =>
        let vs := vs ++ [cosf theta] in
        let vs := vs ++ [sinf theta] in
        let ids := ids ++ [0%Z] in
        let ids := ids ++ [wrap32 (i + 1)] in
        let ids := ids ++ [wrap32 (i + 2)] in
        let theta := fadd theta thetaStep in
        circleLoop fuel' (wrap32 (i + 1)) theta vs ids
    end
  else Some (mkMeshData F vs ids).

(** [prepareCircleModel]: the origin, then the loop. *)
Definition prepareCircleModel (fuel : nat) : option (MeshData F) :=
  let vs := [] ++ [ofZ 0] in
  let vs := vs ++ [ofZ 0] in
  circleLoop fuel 0%Z (ofZ 0) vs [].

(** [prepareBoxModel]: the initialiser lists of the source. *)
Definition prepareBoxModel : MeshData F :=
  mkMeshData F
    [lit 5 1; lit 5 1;
     lit 5 1; lit 5 1;
     lit 5 1; lit 5 1;
     lit 5 1; lit 5 1]
    [0; 1; 2; 1; 3; 2]%Z.

(** The number of vertices of a mesh: two coordinates each. *)
Definition vertexCount (m : MeshData F) : Z :=
  Z.of_nat (length (vertices m)) / 2.

(** [theta] after [k] additions of the step to [0.0f]. *)
Definition thetaAt (k : nat) : F :=
  Nat.iter k (fun t => fadd t thetaStep) (ofZ 0).

(** The coordinates pushed by the iterations [k], ..., [k + n - 1]. *)
Definition rimFrom (k n : nat) : list F :=
  flat_map (fun j => [cosf (thetaAt j); sinf (thetaAt j)]) (seq k n).

(** The indices pushed by the iterations [k], ..., [k + n - 1]. *)
Definition fanFrom (k n : nat) : list Z :=
  flat_map (fun j => [0; Z.of_nat j + 1; Z.of_nat j + 2]%Z) (seq k n).

End Meshes.

(** * Shader loading: [readFile], [compileShader], [compileShaderProgram] *)

Module Shaders.

Import Stdlib.Strings.String.
Local Open Scope string_scope.

Inductive ShaderType := GL_VERTEX_SHADER | GL_FRAGMENT_SHADER.

Inductive StatusName := GL_COMPILE_STATUS | GL_LINK_STATUS.

(** The OpenGL calls and console lines of the three functions, in the
    order in which they are made. *)
Inductive GLCall :=
| Call_glCreateProgram
| Call_glCreateShader (t : ShaderType)
| Call_glShaderSource (shader : Z) (src : string)
| Call_glCompileShader (shader : Z)
| Call_glGetShaderiv (object : Z) (pname : StatusName)
| Call_glGetShaderInfoLog (object : Z)
| Call_glAttachShader (program shader : Z)
| Call_glLinkProgram (program : Z)
| Call_glDeleteShader (shader : Z)
| Cout (line : string).

(** What the file system and the OpenGL driver decide: which files can be
    opened and what they hold, the names ([GLuint]) of the objects created,
    whether a source compiles as a shader of a given type, the value that
    [glGetShaderiv(shaderProgram, GL_LINK_STATUS, &success)] leaves in
    [success] (the call names a program where a shader is expected), and
    the info logs. *)
Record Driver := mkDriver {
  fileContents : string -> option string;
  programName : Z;
  shaderName : nat -> Z;
  compileStatus : ShaderType -> string -> bool;
  statusOnProgram : bool;
  infoLogOf : Z -> string;
}.

(** A shader object: its type, the source last given to it, and whether
    [glCompileShader] has run on that source. *)
Record ShaderObject := mkShaderObject {
  so_type : ShaderType;
  so_source : string;
  so_compiled : bool;
}.

(** The state of the context: the calls so far, the shader objects by
    name, most recent first, and the number of shaders created. *)
Record GLState := mkGLState {
  glCalls : list GLCall;
  shaderObjects : list (Z * ShaderObject);
  shadersCreated : nat;
}.

Definition GLM (A : Type) : Type := GLState -> A * GLState.

Definition glret {A} (a : A) : GLM A := fun st => (a, st).

Definition glbind {A B} (c : GLM A) (k : A -> GLM B) : GLM B :=
  fun st => let (a, st') := c st in k a st'.

Notation "'let*' v ':=' c 'in' k" := (glbind c (fun v => k))
  (at level 10, v name, c at level 100, k at level 200).

Notation "c1 '>>' c2" := (glbind c1 (fun _ => c2))
  (at level 100, c2 at level 200, right associativity).

(** [int] from [GLuint] and back. *)
Definition int_of_GLuint (u : Z) : Z :=
  if (u <? 2 ^ 31)%Z then u else (u - 2 ^ 32)%Z.

Definition GLuint_of_int (i : Z) : Z := wrap32 i.

Fixpoint findObject (name : Z) (objs : list (Z * ShaderObject))
  : option ShaderObject :=
  match objs with
  | [] => None
  | (n, o) :: rest => if (n =? name)%Z then Some o else findObject name rest
  end.

Fixpoint updateObject (name : Z) (f : ShaderObject -> ShaderObject)
  (objs : list (Z * ShaderObject)) : list (Z * ShaderObject) :=
  match objs with
  | [] => []
  | (n, o) :: rest =>
      if (n =? name)%Z then (n, f o) :: rest
      else (n, o) :: updateObject name f rest
  end.

Section WithDriver.

Variable drv : Driver.

Definition called (c : GLCall) : GLM unit := fun st =>
  (tt, mkGLState (glCalls st ++ [c]) (shaderObjects st) (shadersCreated st)).

Definition cout (line : string) : GLM unit := called (Cout line).

Definition glCreateProgram : GLM Z :=
  called Call_glCreateProgram >> glret (programName drv).

Definition glCreateShader (t : ShaderType) : GLM Z := fun st =>
  let name := shaderName drv (shadersCreated st) in
  (name,
   mkGLState (glCalls st ++ [Call_glCreateShader t])
     ((name, mkShaderObject t "" false) :: shaderObjects st)
     (S (shadersCreated st))).

Definition glShaderSource (shader : Z) (src : string) : GLM unit := fun st =>
  (tt,
   mkGLState (glCalls st ++ [Call_glShaderSource shader src])
     (updateObject shader
        (fun o => mkShaderObject (so_type o) src false) (shaderObjects st))
     (shadersCreated st)).

Definition glCompileShader (shader : Z) : GLM unit := fun st =>
  (tt,
   mkGLState (glCalls st ++ [Call_glCompileShader shader])
     (updateObject shader
        (fun o => mkShaderObject (so_type o) (so_source o) true)
        (shaderObjects st))
     (shadersCreated st)).

(** [glGetShaderiv(object, pname, &success)]: whether [success] is non-zero
    afterwards. *)
Definition glGetShaderiv (object : Z) (pname : StatusName) : GLM bool :=
  fun st =>
    (match pname with
     | GL_COMPILE_STATUS =>
         match findObject object (shaderObjects st) with
         | Some o =>
             so_compiled o && compileStatus drv (so_type o) (so_source o)
         | None => false
         end
     | GL_LINK_STATUS => statusOnProgram drv
     end,
     mkGLState (glCalls st ++ [Call_glGetShaderiv object pname])
       (shaderObjects st) (shadersCreated st)).

Definition glGetShaderInfoLog (object : Z) : GLM string :=
  called (Call_glGetShaderInfoLog object) >> glret (infoLogOf drv object).

Definition glAttachShader (program shader : Z) : GLM unit :=
  called (Call_glAttachShader program shader).

Definition glLinkProgram (program : Z) : GLM unit :=
  called (Call_glLinkProgram program).

Definition glDeleteShader (shader : Z) : GLM unit :=
  called (Call_glDeleteShader shader).

(** [readFile]: the contents of the file, or the empty string and a line
    on the console when the file cannot be opened. *)
Definition readFile (filename : string) : GLM string :=
  let ret := "" in
  match fileContents drv filename with
  | Some buf => glret buf
  | None => cout ("Could not open " ++ filename) >> glret ret
  end.

(** [compileShader]: the name of the compiled shader as an [int], or -1. *)
Definition compileShader (filepath : string) (type : ShaderType) : GLM Z :=
  let* shaderSrc := readFile filepath in
  let* name := glCreateShader type in
  let shaderObj := int_of_GLuint name in
  glShaderSource (GLuint_of_int shaderObj) shaderSrc >>
  glCompileShader (GLuint_of_int shaderObj) >>
  let* success := glGetShaderiv (GLuint_of_int shaderObj) GL_COMPILE_STATUS in
  if negb success then
    let* infoLog := glGetShaderInfoLog (GLuint_of_int shaderObj) in
    cout ("Error in shader compilation: " ++ infoLog) >>
    glret (-1)%Z
  else glret shaderObj.

(** [compileShaderProgram]: the name of the linked program as an [int], or
    -1. *)
Definition compileShaderProgram (vertexShaderPath fragmentShaderPath : string)
  : GLM Z :=
  let* name := glCreateProgram in
  let shaderProgram := int_of_GLuint name in
  let* vertexShader := compileShader vertexShaderPath GL_VERTEX_SHADER in
  let* fragmentShader := compileShader fragmentShaderPath GL_FRAGMENT_SHADER in
  if (vertexShader =? -1)%Z || (fragmentShader =? -1)%Z then glret (-1)%Z
  else
    glAttachShader (GLuint_of_int shaderProgram) (GLuint_of_int vertexShader) >>
    glAttachShader (GLuint_of_int shaderProgram)
      (GLuint_of_int fragmentShader) >>
    glLinkProgram (GLuint_of_int shaderProgram) >>
    let* success :=
      glGetShaderiv (GLuint_of_int shaderProgram) GL_LINK_STATUS in
    if negb success then
      let* infoLog := glGetShaderInfoLog (GLuint_of_int shaderProgram) in
      cout ("Error in shader linking: " ++ infoLog) >>
      glret (-1)%Z
    else
      glDeleteShader (GLuint_of_int vertexShader) >>
      glDeleteShader (GLuint_of_int fragmentShader) >>
      glret shaderProgram.

(** The source that [compileShader] hands to the driver for a path. *)
Definition sourceOf (path : string) : string :=
  match fileContents drv path with
  | Some buf => buf
  | None => ""
  end.

(** The calls of one [compileShader] that creates the shader [name]. *)
Definition compileShaderCalls (path : string) (t : ShaderType) (name : Z)
  : list GLCall :=
  (match fileContents drv path with
   | Some _ => []
   | None => [Cout ("Could not open " ++ path)]
   end
   ++ [Call_glCreateShader t;
       Call_glShaderSource name (sourceOf path);
       Call_glCompileShader name;
       Call_glGetShaderiv name GL_COMPILE_STATUS]
   ++ (if compileStatus drv t (sourceOf path) then []
       else [Call_glGetShaderInfoLog name;
             Cout ("Error in shader compilation: " ++ infoLogOf drv name)])
  )%list.

(** The calls of [compileShaderProgram] after both shaders have
    compiled. *)
Definition linkStageCalls (program vertexShader fragmentShader : Z)
  : list GLCall :=
  ([Call_glAttachShader program vertexShader;
    Call_glAttachShader program fragmentShader;
    Call_glLinkProgram program;
    Call_glGetShaderiv program GL_LINK_STATUS]
   ++ (if statusOnProgram drv
       then [Call_glDeleteShader vertexShader;
             Call_glDeleteShader fragmentShader]
       else [Call_glGetShaderInfoLog program;
             Cout ("Error in shader linking: " ++ infoLogOf drv program)])
  )%list.

End WithDriver.

Definition isDelete (c : GLCall) : bool :=
  match c with
  | Call_glDeleteShader _ => true
  | _ => false
  end.

(** A valid object name that is not [0xFFFFFFFF], the one [GLuint] that
    reads as the [int] -1. *)
Definition properName (u : Z) : Prop := (0 <= u < 2 ^ 32 - 1)%Z.

(** A driver for running the definitions: [main.vs] holds a shader that
    compiles, [main.fs] cannot be opened, and the empty source does not
    compile. *)
Definition sampleDriver : Driver := {|
  fileContents := fun path =>
    if eqb path "main.vs" then Some "void main() {}" else None;
  programName := 1;
  shaderName := fun k => (2 + Z.of_nat k)%Z;
  compileStatus := fun _ src => negb (eqb src "");
  statusOnProgram := true;
  infoLogOf := fun _ => "empty source";
|}.

(** As [sampleDriver], with both files readable. *)
Definition goodDriver : Driver := {|
  fileContents := fun path => Some "void main() {}";
  programName := 1;
  shaderName := fun k => (2 + Z.of_nat k)%Z;
  compileStatus := fun _ src => negb (eqb src "");
  statusOnProgram := true;
  infoLogOf := fun _ => "";
|}.

Definition freshContext : GLState := mkGLState [] [] 0.

Definition vertexPath : string := "main.vs".
Definition fragmentPath : string := "main.fs".

End Shaders.

(** * Vocabulary of the statements on runs *)

Section RunVocabulary.

Context {F D : Type} {NF : Num F} {ND : Num D} {ND2F : Narrow D F}.

(** A mouse button press is seen on the tick. *)
Definition clicked (inp : @TickInput D) : bool :=
  mouseButton1 inp || mouseButton2 inp.

(** The number of ticks before tick [n] on which a press is seen. *)
Fixpoint clicksBefore (env : @Env D) (n : nat) : nat :=
  match n with
  | O => 0
  | S n' =>
      clicksBefore env n' + (if clicked (tickInput env n') then 1 else 0)
  end.

(** Escape is held on one of the [k] ticks from tick [t]. *)
Definition escapeDuring (env : @Env D) (t k : nat) : bool :=
  existsb (fun j => keyEscape (tickInput env j)) (seq t k).

(** The calls of the simulation step, as opposed to those of the
    presentation of a frame. *)
Definition isTickCall (c : Call) : bool :=
  match c with
  | CallInputUpdate | CallProcessInput
  | CallUpdate _ | CallCheckCollisions _ => true
  | _ => false
  end.

(** No movement or rotation key is held. *)
Definition noKeys (inp : @TickInput D) : bool :=
  negb (keyW inp || keyS inp || keyA inp || keyD inp
        || keyRight inp || keyLeft inp).

End RunVocabulary.

(** On IEEE floats: a number that is not NaN or infinite. *)
Definition isFinite (a : IEEE.float) : bool :=
  match IEEE.float_bits a with
  | S754_zero _ | S754_finite _ _ _ => true
  | _ => false
  end.

(** The same float, except that [-0] may have become [+0]. *)
Definition sameUpToZeroSign (a b : IEEE.float) : Prop :=
  a = b \/
  (a = IEEE.mkFloat (S754_zero true) /\ b = IEEE.mkFloat (S754_zero false)).

(** On IEEE floats: a number that is neither NaN nor a zero. *)
Definition isNonzero (a : IEEE.float) : bool :=
  match IEEE.float_bits a with
  | S754_infinity _ | S754_finite _ _ _ => true
  | _ => false
  end.





(** ** Contacts with finite correction and impulse

    The resolution gives a kinematic entity its share, zero, of the
    correction and of the impulse by multiplying them with zero.  On IEEE
    floats the product is a zero only for a finite factor; the conditions
    below say, along a run, that the factors are finite. *)

Section Calm.

Variable cfg : @Config IEEE.float IEEE.double.
Variable phys : @Physics IEEE.float.

(** For the contact with normal [n] and depth [d] between [a] and [b]:
    depth and normal are finite, the sum of the inverse masses is neither
    NaN nor zero, and, unless the bodies separate, the impulse [j * n] is
    finite; [j] as in [applyImpulse]. *)
Definition finiteContact (n : @Vector2 IEEE.float) (d : IEEE.float)
  (a b : @Entity IEEE.float) : bool :=
  let total := fadd (invMass a) (invMass b) in
  let vRel := vdot (vsub (velocity b) (velocity a)) n in
  let e := combineBounciness phys (bounciness a) (bounciness b) in
  let j := fdiv (fmul (fneg (fadd (ofZ 1) e)) vRel) total in
  isFinite d && isFinite (x n) && isFinite (y n) && isNonzero total
  && (flt (ofZ 0) vRel
      || isFinite (fmul (x n) j) && isFinite (fmul (y n) j)).

(** The condition is asked of a contact between a kinematic and a
    non-kinematic entity only. *)
Definition calmContact (n : @Vector2 IEEE.float) (d : IEEE.float)
  (a b : @Entity IEEE.float) : bool :=
  if xorb (kinematic a) (kinematic b) then finiteContact n d a b else true.

(** The contact, if any, that [checkPair i j] resolves is calm. *)
Definition calmPair (i j : nat) (ents : list (@Entity IEEE.float)) : bool :=
  if (i =? j)%nat then true
  else
    match ents !! i, ents !! j with
    | Some a, Some b =>
        match detect phys a b with
        | Some (n, d) => calmContact n d a b
        | None => true
        end
    | _, _ => true
    end.

(** The contacts that [checkPair i j], for [j] in [js] in turn, resolve. *)
Fixpoint calmPairs (i : nat) (js : list nat)
  (ents : list (@Entity IEEE.float)) : bool :=
  match js with
  | [] => true
  | j :: js' =>
      calmPair i j ents && calmPairs i js' (checkPair phys i j ents)
  end.

(** The contacts that [CheckCollisions] on [entities[i]], for [i] in [ks]
    in turn, resolves. *)
Fixpoint calmChecks (ks : list nat) (ents : list (@Entity IEEE.float))
  : bool :=
  match ks with
  | [] => true
  | i :: ks' =>
      calmPairs i (seq 0 (length ents)) ents
      && calmChecks ks' (Entity_CheckCollisions phys i ents)
  end.

(** The contacts resolved in one tick. *)
Definition calmTick (inp : @TickInput IEEE.double)
  (ents : list (@Entity IEEE.float)) : bool :=
  let es := Entity_Update phys
              <$> (applyInput cfg (movementOf inp) (rotationOf inp)
                     <$> (ents ++ spawned cfg inp)) in
  calmChecks (seq 0 (length es)) es.

(** The contacts resolved in a run of ticks. *)
Fixpoint calmRun (inps : list (@TickInput IEEE.double))
  (w : @World IEEE.float) : bool :=
  match inps with
  | [] => true
  | inp :: inps' =>
      calmTick inp (entities w)
      && calmRun inps'
           (exec (tick cfg (Entity_Update phys) (Entity_CheckCollisions phys)
                    inp) w)
  end.

End Calm.

(** * Sample runs *)

Module DemoRuns.

Definition NaN : IEEE.double := IEEE.mkDouble S754_nan.

Definition infinity : IEEE.double := IEEE.mkDouble (S754_infinity false).

(** A run on IEEE floats whose second clock reading is NaN; Escape is
    held on every tick, and a close request comes during the third
    frame. *)
Definition brokenClock : @Env IEEE.double := {|
  windowCreated := true;
  gladLoaded := true;
  rand := fun k => (1000 + 37 * Z.of_nat k)%Z;
  argsLeftToRight := true;
  glfwGetTime := fun k =>
    if (k =? 1)%nat then NaN else fdiv (ofZ (Z.of_nat k)) (ofZ 20);
  tickInput := fun _ =>
    mkTickInput (ofZ 100) (ofZ 200)
      false false true false false false false false false;
  closeRequested := fun k => (k =? 2)%nat;
|}.

(** A state of [main] whose accumulator is infinite. *)
Definition overflowed : @MainState IEEE.float IEEE.double :=
  mkMainState emptyWorld (ofZ 0) infinity 0 0.

(** A run with a click on the second tick and Escape on the third. *)
Definition clickThenEscape : @Env IEEE.double := {|
  windowCreated := true;
  gladLoaded := true;
  rand := fun k => (1000 + 37 * Z.of_nat k)%Z;
  argsLeftToRight := true;
  glfwGetTime := fun k => fdiv (ofZ (Z.of_nat k)) (ofZ 20);
  tickInput := fun t =>
    match t with
    | 1 => Demo.secondaryClick
    | 2 => mkTickInput (ofZ 100) (ofZ 200)
             false false true false false false false false false
    | _ => Demo.idle
    end;
  closeRequested := fun _ => false;
|}.

(** A run whose window cannot be created. *)
Definition noWindow : @Env IEEE.double := {|
  windowCreated := false;
  gladLoaded := true;
  rand := fun k => Z.of_nat k;
  argsLeftToRight := true;
  glfwGetTime := fun k => ofZ (Z.of_nat k);
  tickInput := fun _ => Demo.idle;
  closeRequested := fun _ => false;
|}.

End DemoRuns.

(** * Properties *)

Section Properties.

Context {F D : Type} {NF : Num F} {ND : Num D} {ND2F : Narrow D F}.
Variable cfg : @Config F D.

Local Notation "c1 ;; c2" := (bind c1 (fun _ => c2))
  (at level 100, c2 at level 200, right associativity).

(** ** The state monad *)

Lemma exec_bind {A B} (c : @Sim F A) (k : A -> Sim B) (w : World) :
  exec (bind c k) w = exec (k (fst (c w))) (exec c w).
Proof. unfold exec, bind. by destruct (c w). Qed.

Lemma exec_seq {B} (c : @Sim F unit) (k : Sim B) (w : World) :
  exec (c ;; k) w = exec k (exec c w).
Proof. apply exec_bind. Qed.

Lemma exec_when (b : bool) (c : @Sim F unit) (w : World) :
  exec (when b c) w = if b then exec c w else w.
Proof. by destruct b. Qed.

(** ** Loops over the entity vector *)

(** A loop whose body keeps the size of [entities] runs its body on the
    indices from [i] up to the size, in increasing order. *)
Lemma forLoop_foldl (body : nat -> @Sim F unit) :
  (forall i w, length (entities (exec (body i) w)) = length (entities w)) ->
  forall fuel i w,
    length (entities w) - i <= fuel ->
    exec (forLoop fuel i body) w =
    foldl (fun w' j => exec (body j) w') w (seq i (length (entities w) - i)).
Proof.
  intros Hlen fuel. induction fuel as [|fuel IH]; intros i w Hfuel.
  - replace (length (entities w) - i) with 0 by lia. done.
  - unfold exec at 1. simpl.
    destruct (Nat.ltb_spec i (length (entities w))) as [Hlt|Hge].
    + replace (length (entities w) - i) with (S (length (entities w) - S i))
        by lia.
      simpl. specialize (IH (S i) (exec (body i) w)).
      rewrite Hlen in IH. rewrite <- IH by lia.
      unfold exec. by destruct (body i w).
    + replace (length (entities w) - i) with 0 by lia. done.
Qed.

Lemma forEntities_foldl (body : nat -> @Sim F unit) (w : World) :
  (forall i w, length (entities (exec (body i) w)) = length (entities w)) ->
  exec (forEntities body) w =
  foldl (fun w' j => exec (body j) w') w (seq 0 (length (entities w))).
Proof.
  intros Hlen.
  change (exec (forEntities body) w)
    with (exec (forLoop (length (entities w)) 0 body) w).
  rewrite forLoop_foldl by (done || lia). by rewrite Nat.sub_0_r.
Qed.

(** The initial fuel of [forEntities] is enough: with more fuel the loop
    computes the same state, so it leaves through its guard. *)
Lemma forEntities_complete (body : nat -> @Sim F unit) (w : World) (extra : nat) :
  (forall i w, length (entities (exec (body i) w)) = length (entities w)) ->
  exec (forLoop (length (entities w) + extra) 0 body) w =
  exec (forEntities body) w.
Proof.
  intros Hlen. rewrite forEntities_foldl by done.
  rewrite forLoop_foldl by (done || lia). by rewrite Nat.sub_0_r.
Qed.

(** ** [processInput] *)

Lemma exec_modifyEntity_foldl (f : @Entity F -> Entity) (js : list nat) (w : World) :
  foldl (fun w' j => exec (modifyEntity j f) w') w js =
  mkWorld (foldl (fun l j => alter f j l) (entities w) js)
          (windowShouldClose w) (calls w).
Proof.
  revert w. induction js as [|j js IH]; intros w; simpl.
  - by destruct w.
  - by rewrite IH.
Qed.

Lemma lookup_foldl_alter {A} (f : A -> A) (k i j : nat) (l : list A) :
  foldl (fun l' p => alter f p l') l (seq i k) !! j =
  if decide (i <= j < i + k)%nat then f <$> l !! j else l !! j.
Proof.
  revert i l. induction k as [|k IH]; intros i l; simpl.
  - case_decide; [lia | done].
  - rewrite IH. destruct (decide (i = j)) as [->|Hne].
    + rewrite list_lookup_alter_eq. repeat case_decide; (lia || done).
    + rewrite list_lookup_alter_ne by done. repeat case_decide; (lia || done).
Qed.

Lemma foldl_alter_all {A} (f : A -> A) (l : list A) :
  foldl (fun l' p => alter f p l') l (seq 0 (length l)) = f <$> l.
Proof.
  apply list_eq. intros j. rewrite lookup_foldl_alter, list_lookup_fmap.
  case_decide as Hj; [done|].
  rewrite (lookup_ge_None_2 l j) by lia. done.
Qed.

(** A loop that updates every entity through its pointer maps the update
    over the vector. *)
Lemma forEntities_modify (f : @Entity F -> Entity) (w : World) :
  exec (forEntities (fun i => modifyEntity i f)) w =
  mkWorld (f <$> entities w) (windowShouldClose w) (calls w).
Proof.
  rewrite forEntities_foldl.
  - by rewrite exec_modifyEntity_foldl, foldl_alter_all.
  - intros i w'. simpl. apply length_alter.
Qed.

(** [processInput] as a function on the globals: the clicks append, the
    escape key sets the close flag, and the loop maps [applyInput] over all
    entities, the new one included. *)
Lemma processInput_exec (inp : TickInput) (w : World) :
  exec (processInput cfg inp) w =
  mkWorld
    (applyInput cfg (movementOf inp) (rotationOf inp)
       <$> (entities w ++ spawned cfg inp))
    (windowShouldClose w || keyEscape inp)
    (calls w).
Proof.
  unfold processInput. rewrite !exec_seq, forEntities_modify, exec_when.
  unfold spawned.
  destruct (mouseButton1 inp), (mouseButton2 inp), (keyEscape inp),
    (windowShouldClose w) eqn:Hc; unfold skip, ret, exec; simpl;
    rewrite ?app_nil_r, ?Hc; done.
Qed.

(** The fields that the loop of [processInput] leaves alone. *)
Lemma applyInput_frame (mv : Vector2) (rot : F) (e : Entity) :
  position (applyInput cfg mv rot e) = position e /\
  velocity (applyInput cfg mv rot e) = velocity e /\
  mass (applyInput cfg mv rot e) = mass e /\
  type (applyInput cfg mv rot e) = type e /\
  kinematic (applyInput cfg mv rot e) = kinematic e /\
  shape (applyInput cfg mv rot e) = shape e.
Proof.
  unfold applyInput, isKinematic.
  destruct (kinematic e) eqn:Hk, (type e) eqn:Ht; simpl;
    rewrite ?Ht; simpl; rewrite ?Hk, ?Ht; done.
Qed.

Lemma applyInput_force (mv : Vector2) (rot : F) (e : Entity) :
  force (applyInput cfg mv rot e) =
  if kinematic e then force e
  else mkVector2
         (fadd (x (force e)) (fmul (x mv) (mass e)))
         (fadd (y (force e))
               (fmul (fmul (y mv) (fneg (GRAVITY cfg))) (mass e))).
Proof.
  unfold applyInput, isKinematic.
  destruct (kinematic e), (type e) eqn:Ht; simpl; rewrite ?Ht; done.
Qed.

Lemma applyInput_rotation (mv : Vector2) (rot : F) (e : Entity) :
  rotation (applyInput cfg mv rot e) =
  match type e with
  | BOX => fadd (rotation e) rot
  | CIRCLE => rotation e
  end.
Proof.
  unfold applyInput, isKinematic.
  destruct (kinematic e), (type e) eqn:Ht; simpl; rewrite ?Ht; done.
Qed.

Lemma processInput_lookup (inp : TickInput) (w : World) (i : nat) (e : Entity) :
  (entities w ++ spawned cfg inp) !! i = Some e ->
  entities (exec (processInput cfg inp) w) !! i =
  Some (applyInput cfg (movementOf inp) (rotationOf inp) e).
Proof.
  intros Hi. rewrite processInput_exec. simpl.
  by rewrite list_lookup_fmap, Hi.
Qed.

(** C3 (as amended): on a tick, [processInput] adds to [force.y] of every
    non-kinematic entity exactly [movement.y * -GRAVITY * mass], where
    [movement.y] is 5 while W is held, -5 while S is held without W, and 0
    otherwise. *)
Theorem processInput_gravity_term (inp : TickInput) (w : World) (i : nat)
    (e : Entity) :
  (entities w ++ spawned cfg inp) !! i = Some e ->
  kinematic e = false ->
  exists e',
    entities (exec (processInput cfg inp) w) !! i = Some e' /\
    y (force e') =
    fadd (y (force e))
      (fmul
         (fmul (if keyW inp then ofZ 5
                else if keyS inp then fneg (ofZ 5)
                else ofZ 0)
               (fneg (GRAVITY cfg)))
         (mass e)).
Proof.
  intros Hi Hk. eexists. split; [by apply processInput_lookup|].
  rewrite applyInput_force, Hk. simpl. do 3 f_equal.
  unfold movementOf.
  by destruct (keyW inp), (keyS inp), (keyA inp), (keyD inp).
Qed.

(** C6 (as amended): on a tick with a primary click a new non-kinematic
    circle is appended to the collection at the cursor position; on a tick
    with a secondary click and no primary click a new kinematic circle is
    appended at the cursor position.  The cursor position is taken in the
    coordinates of the scene: x as reported, y measured up from the bottom
    edge of the window ([SCREEN_HEIGHT - ypos]). *)
Theorem click_appends_entity (inp : TickInput) (w : World) :
  (mouseButton1 inp = true ->
   exists e,
     entities (exec (processInput cfg inp) w) =
       (applyInput cfg (movementOf inp) (rotationOf inp) <$> entities w)
       ++ [e] /\
     kinematic e = false /\
     position e = cursorPosition cfg inp) /\
  (mouseButton1 inp = false -> mouseButton2 inp = true ->
   exists e,
     entities (exec (processInput cfg inp) w) =
       (applyInput cfg (movementOf inp) (rotationOf inp) <$> entities w)
       ++ [e] /\
     kinematic e = true /\
     position e = cursorPosition cfg inp).
Proof.
  split.
  - intros H1. eexists. rewrite processInput_exec. simpl.
    unfold spawned. rewrite H1, fmap_app. simpl. split; [done|].
    destruct (applyInput_frame (movementOf inp) (rotationOf inp)
                (newEntityCircle cfg (cursorPosition cfg inp)))
      as (Hp & _ & _ & _ & Hk & _).
    by rewrite Hp, Hk.
  - intros H1 H2. eexists. rewrite processInput_exec. simpl.
    unfold spawned. rewrite H1, H2, fmap_app. simpl. split; [done|].
    destruct (applyInput_frame (movementOf inp) (rotationOf inp)
                (setKinematic true
                   (newEntityCircle cfg (cursorPosition cfg inp))))
      as (Hp & _ & _ & _ & Hk & _).
    by rewrite Hp, Hk.
Qed.

(** C7: the input step of a tick leaves force, velocity and position of
    every kinematic entity unchanged; it adds the rotation input (1 for
    RIGHT, -1 for LEFT, 0 for neither) to the rotation of every box,
    kinematic or not, and leaves the rotation of every circle unchanged. *)
Theorem processInput_kinematic_frame (inp : TickInput) (w : World) (i : nat)
    (e : Entity) :
  (entities w ++ spawned cfg inp) !! i = Some e ->
  exists e',
    entities (exec (processInput cfg inp) w) !! i = Some e' /\
    (kinematic e = true ->
     force e' = force e /\ velocity e' = velocity e /\
     position e' = position e) /\
    (type e = BOX -> rotation e' = fadd (rotation e) (rotationOf inp)) /\
    (type e = CIRCLE -> rotation e' = rotation e) /\
    rotationOf inp =
      (if keyRight inp then ofZ 1
       else if keyLeft inp then fneg (ofZ 1) else ofZ 0).
Proof.
  intros Hi. eexists. split; [by apply processInput_lookup|].
  destruct (applyInput_frame (movementOf inp) (rotationOf inp) e)
    as (Hp & Hv & _).
  split; [|split; [|split]].
  - intros Hk. by rewrite applyInput_force, Hk.
  - intros Ht. by rewrite applyInput_rotation, Ht.
  - intros Ht. by rewrite applyInput_rotation, Ht.
  - done.
Qed.


Lemma countType_app (t : EntityType) (l k : list (@Entity F)) :
  countType t (l ++ k) = countType t l + countType t k.
Proof. unfold countType. by rewrite list.filter_app, length_app. Qed.

Lemma countType_applyInput (t : EntityType) (mv : Vector2) (rot : F)
    (l : list Entity) :
  countType t (applyInput cfg mv rot <$> l) = countType t l.
Proof.
  unfold countType. induction l as [|e l IH]; [done|].
  rewrite fmap_cons, !list.filter_cons.
  destruct (applyInput_frame mv rot e) as (_ & _ & _ & Ht & _).
  rewrite Ht. case_decide; simpl; by rewrite IH.
Qed.

Lemma spawned_circles (inp : TickInput) :
  Forall (fun e => type e = CIRCLE) (spawned cfg inp) /\
  length (spawned cfg inp) <= 1.
Proof.
  unfold spawned.
  destruct (mouseButton1 inp), (mouseButton2 inp); simpl;
    split; repeat constructor.
Qed.

(** ** The seeded scene *)

Lemma spawnEntities_exec (env : @Env D) (w : World) :
  exec (spawnEntities cfg env) w =
  mkWorld
    (entities w ++
     [newEntityBox cfg (boxSeedPosition cfg env 0);
      newEntityCircle cfg (circleSeedPosition cfg env 2);
      newEntityCircle cfg (circleSeedPosition cfg env 4)])
    (windowShouldClose w) (calls w).
Proof.
  unfold spawnEntities, exec, bind, push_back, skip, ret. simpl.
  by rewrite <- !app_assoc.
Qed.

Lemma initState_world (env : @Env D) :
  world (initState cfg env) =
  mkWorld
    [newEntityBox cfg (boxSeedPosition cfg env 0);
     newEntityCircle cfg (circleSeedPosition cfg env 2);
     newEntityCircle cfg (circleSeedPosition cfg env 4)]
    false [].
Proof. unfold initState. cbn [world]. by rewrite spawnEntities_exec. Qed.

(** C10: every entity created in response to input is a circle, and at
    most one is created per tick; [processInput] leaves the number of boxes
    as it is, the one box being that of the seeded scene; and with the
    primary button pressed, whatever the secondary button, the one entity
    created is non-kinematic. *)
Theorem input_creates_circles_only (inp : TickInput) (w : World)
    (env : @Env D) :
  exists news,
    entities (exec (processInput cfg inp) w) =
      (applyInput cfg (movementOf inp) (rotationOf inp) <$> entities w)
      ++ news /\
    length news <= 1 /\
    Forall (fun e => type e = CIRCLE) news /\
    countType BOX (entities (exec (processInput cfg inp) w)) =
      countType BOX (entities w) /\
    countType BOX (entities (world (initState cfg env))) = 1 /\
    (mouseButton1 inp = true ->
     exists e, news = [e] /\ kinematic e = false).
Proof.
  exists (applyInput cfg (movementOf inp) (rotationOf inp)
            <$> spawned cfg inp).
  destruct (spawned_circles inp) as [Hc Hl].
  rewrite processInput_exec, initState_world. simpl.
  split; [by rewrite fmap_app|].
  split; [by rewrite length_fmap|]. split.
  { apply Forall_fmap. eapply list.Forall_impl; [exact Hc|]. simpl.
    intros e He. destruct (applyInput_frame (movementOf inp)
      (rotationOf inp) e) as (_ & _ & _ & Ht & _). by rewrite Ht. }
  split.
  { rewrite countType_applyInput, countType_app.
    assert (countType BOX (spawned cfg inp) = 0) as ->; [|lia].
    unfold spawned, countType.
    by destruct (mouseButton1 inp), (mouseButton2 inp). }
  split.
  { done. }
  intros H1. unfold spawned. rewrite H1. simpl. eexists. split; [done|].
  destruct (applyInput_frame (movementOf inp) (rotationOf inp)
              (newEntityCircle cfg (cursorPosition cfg inp)))
    as (_ & _ & _ & _ & Hk & _).
  by rewrite Hk.
Qed.

(** ** The tick and the frame *)

Section Loop.

Variable Update : @Entity F -> @Entity F.
Variable CheckCollisions : nat -> list (@Entity F) -> list (@Entity F).

Local Abbreviation tick := (tick cfg Update CheckCollisions).
Local Abbreviation stepOnce := (stepOnce cfg Update CheckCollisions).
Local Abbreviation stepping := (stepping cfg Update CheckCollisions).
Local Abbreviation frame := (frame cfg Update CheckCollisions).
Local Abbreviation mainLoop := (mainLoop cfg Update CheckCollisions).
Local Abbreviation main := (main cfg Update CheckCollisions).
Local Abbreviation tickEntities := (tickEntities cfg Update CheckCollisions).
Local Abbreviation entitiesAfter := (entitiesAfter cfg Update CheckCollisions).


Lemma exec_logged_foldl (c : nat -> Call)
    (g : nat -> list (@Entity F) -> list Entity) (js : list nat) (w : World) :
  foldl (fun w' j => exec (record (c j) ;; modifyEntities (g j)) w') w js =
  mkWorld (foldl (fun l j => g j l) (entities w) js)
          (windowShouldClose w) (calls w ++ (c <$> js)).
Proof.
  revert w. induction js as [|j js IH]; intros w; simpl.
  - rewrite app_nil_r. by destruct w.
  - rewrite IH. unfold exec, bind, record, modifyEntities. simpl.
    by rewrite <- app_assoc.
Qed.

Lemma exec_record_foldl (c : nat -> Call) (js : list nat) (w : @World F) :
  foldl (fun w' j => exec (record (c j)) w') w js =
  mkWorld (entities w) (windowShouldClose w) (calls w ++ (c <$> js)).
Proof.
  revert w. induction js as [|j js IH]; intros w; simpl.
  - rewrite app_nil_r. by destruct w.
  - rewrite IH. unfold exec, record. simpl. by rewrite <- app_assoc.
Qed.

Hypothesis CheckCollisions_length :
  forall i es, length (CheckCollisions i es) = length es.

Lemma checkAll_prefix_length (js : list nat) (es : list (@Entity F)) :
  length (foldl (fun l j => CheckCollisions j l) es js) = length es.
Proof.
  revert es. induction js as [|j js IH]; intros es; simpl; [done|].
  by rewrite IH, CheckCollisions_length.
Qed.

(** One tick as a function on the globals. *)
Lemma tick_exec (inp : TickInput) (w : World) :
  exec (tick inp) w =
  mkWorld
    (tickEntities inp (entities w))
    (windowShouldClose w || keyEscape inp)
    (calls w ++
     tickCalls (length (entities (exec (processInput cfg inp) w)))).
Proof.
  unfold tick.
  change (fun i => record (CallUpdate i) ;; modifyEntity i Update)
    with (fun i => record (CallUpdate i) ;; modifyEntities (alter Update i)).
  rewrite !exec_seq.
  rewrite (forEntities_foldl (fun i =>
    record (CallCheckCollisions i) ;; modifyEntities (CheckCollisions i))).
  2:{ intros i w'. unfold exec, bind, record, modifyEntities. simpl.
      apply CheckCollisions_length. }
  rewrite exec_logged_foldl.
  rewrite (forEntities_foldl (fun i =>
    record (CallUpdate i) ;; modifyEntities (alter Update i))).
  2:{ intros i w'. unfold exec, bind, record, modifyEntities. simpl.
      apply length_alter. }
  rewrite (exec_logged_foldl CallUpdate (fun j => alter Update j)).
  rewrite !processInput_exec. unfold exec, record. simpl.
  rewrite foldl_alter_all, !length_fmap.
  unfold tickEntities, checkAll, tickCalls. rewrite !length_fmap.
  f_equal. rewrite <- !app_assoc. done.
Qed.

Lemma stepOnce_iter (env : @Env D) (k : nat) (s : MainState) :
  deltaTime (Nat.iter k (stepOnce env) s) = decrements k (deltaTime s) /\
  ticksDone (Nat.iter k (stepOnce env) s) = ticksDone s + k /\
  lastTime (Nat.iter k (stepOnce env) s) = lastTime s /\
  framesDone (Nat.iter k (stepOnce env) s) = framesDone s.
Proof.
  induction k as [|k (Hd & Ht & Hl & Hf)]; simpl.
  - repeat split. lia.
  - rewrite Hd, Ht, Hl, Hf. repeat split. lia.
Qed.

(** The inner loop runs exactly as many ticks as the accumulator allows:
    if the guard holds before each of the first [k] decrements and fails
    after the [k]-th, any fuel of at least [k] gives the state after [k]
    iterations. *)
Lemma stepping_iter (env : @Env D) (k : nat) :
  forall (fuel : nat) (s : MainState),
    (forall j, j < k -> fge (decrements j (deltaTime s)) (ofZ 1) = true) ->
    fge (decrements k (deltaTime s)) (ofZ 1) = false ->
    k <= fuel ->
    stepping env fuel s = Some (Nat.iter k (stepOnce env) s).
Proof.
  induction k as [|k IH]; intros fuel s Hrun Hstop Hfuel.
  - unfold decrements in Hstop. simpl in Hstop.
    destruct fuel; simpl; by rewrite Hstop.
  - destruct fuel as [|fuel]; [lia|].
    pose proof (Hrun 0 ltac:(lia)) as H0.
    unfold decrements in H0, Hstop. simpl in H0.
    simpl. rewrite H0.
    rewrite Nat.iter_succ_r in Hstop.
    rewrite (IH fuel (stepOnce env s)); [| |done|lia].
    + f_equal. by rewrite <- Nat.iter_succ_r.
    + intros j Hj. specialize (Hrun (S j)). unfold decrements in *.
      rewrite Nat.iter_succ_r in Hrun. apply Hrun. lia.
Qed.

(** C1: in a frame, the elapsed time times [TICKS_PER_SECOND] is added to
    the accumulator; then, while the accumulator is at least 1, one whole
    tick is run: [input->Update()] and [processInput], then [Update()] on
    every entity, then, after all of them, [CheckCollisions] once per entity
    on the whole collection, and the accumulator goes down by 1.  Stated
    for a frame whose accumulator allows exactly [k] ticks. *)
Theorem frame_consumes_whole_ticks (env : @Env D) (k fuel : nat)
    (s : MainState) :
  (forall j, j < k ->
     fge (decrements j (deltaTime (measureTime cfg env s))) (ofZ 1) = true) ->
  fge (decrements k (deltaTime (measureTime cfg env s))) (ofZ 1) = false ->
  k <= fuel ->
  deltaTime (measureTime cfg env s) =
    fadd (deltaTime s)
      (fmul (fsub (glfwGetTime env (S (framesDone s))) (lastTime s))
            (TICKS_PER_SECOND cfg)) /\
  frame env fuel s =
    Some (present env (Nat.iter k (stepOnce env) (measureTime cfg env s))) /\
  ticksDone (Nat.iter k (stepOnce env) (measureTime cfg env s)) =
    ticksDone s + k /\
  deltaTime (Nat.iter k (stepOnce env) (measureTime cfg env s)) =
    decrements k (deltaTime (measureTime cfg env s)) /\
  forall s' : MainState,
    let inp := tickInput env (ticksDone s') in
    let w1 := exec (processInput cfg inp) (world s') in
    entities (world (stepOnce env s')) =
      checkAll CheckCollisions (Update <$> entities w1) /\
    calls (world (stepOnce env s')) =
      calls (world s')
      ++ [CallInputUpdate; CallProcessInput]
      ++ (CallUpdate <$> seq 0 (length (entities w1)))
      ++ (CallCheckCollisions <$> seq 0 (length (entities w1))) /\
    deltaTime (stepOnce env s') = fsub (deltaTime s') (ofZ 1).
Proof.
  intros Hrun Hstop Hfuel. split; [done|]. split.
  { unfold frame. by rewrite (stepping_iter env k). }
  destruct (stepOnce_iter env k (measureTime cfg env s)) as (Hd & Ht & _).
  split; [done|]. split; [done|].
  intros s' inp w1. unfold stepOnce. cbn [world deltaTime].
  rewrite tick_exec. cbn [entities calls]. split; [|done].
  unfold tickEntities. subst w1. by rewrite processInput_exec.
Qed.

(** ** Determinism *)

Lemma stepOnce_entities (env : @Env D) (s : MainState) :
  entities (world (stepOnce env s)) =
  tickEntities (tickInput env (ticksDone s)) (entities (world s)).
Proof. unfold stepOnce. cbn [world]. by rewrite tick_exec. Qed.

Local Abbreviation onTrack := (onTrack cfg Update CheckCollisions).

Lemma stepping_onTrack (env : @Env D) (fuel : nat) :
  forall s s', onTrack env s -> stepping env fuel s = Some s' ->
    onTrack env s'.
Proof.
  induction fuel as [|fuel IH]; intros s s' Hs; simpl.
  - destruct (fge _ _); [done|]. by intros [= <-].
  - destruct (fge _ _); [|by intros [= <-]].
    apply IH. unfold onTrack. rewrite stepOnce_entities, Hs. done.
Qed.

Lemma present_entities (env : @Env D) (s : @MainState F D) :
  entities (world (present env s)) = entities (world s) /\
  ticksDone (present env s) = ticksDone s.
Proof.
  unfold present. cbn [world ticksDone]. split; [|done].
  rewrite !exec_seq, exec_when. unfold renderAll.
  rewrite forEntities_foldl by done. rewrite exec_record_foldl.
  by destruct (closeRequested env (framesDone s)).
Qed.

Lemma frame_onTrack (env : @Env D) (fuel : nat) (s s' : MainState) :
  onTrack env s -> frame env fuel s = Some s' -> onTrack env s'.
Proof.
  unfold frame. intros Hs.
  destruct (stepping env fuel (measureTime cfg env s)) as [s1|] eqn:H1;
    [|done].
  intros [= <-]. apply stepping_onTrack in H1; [|exact Hs].
  destruct (present_entities env s1) as [He Ht].
  unfold onTrack. by rewrite He, Ht.
Qed.

Lemma mainLoop_onTrack (env : @Env D) (frames fuel : nat) :
  forall s s', onTrack env s -> mainLoop env frames fuel s = Some s' ->
    onTrack env s'.
Proof.
  induction frames as [|frames IH]; intros s s' Hs; simpl.
  - destruct (windowShouldClose _); [|done]. by intros [= <-].
  - destruct (windowShouldClose _); [by intros [= <-]|].
    destruct (frame env fuel s) as [s1|] eqn:H1; [|done].
    apply IH. by eapply frame_onTrack.
Qed.

Lemma entitiesAfter_ext (env1 env2 : @Env D) (n : nat) :
  entities (world (initState cfg env1)) =
    entities (world (initState cfg env2)) ->
  (forall t, t < n -> tickInput env1 t = tickInput env2 t) ->
  entitiesAfter env1 n = entitiesAfter env2 n.
Proof.
  intros Hseed. induction n as [|n IH]; intros Hin; simpl; [done|].
  rewrite IH, Hin by (intros; (apply Hin || idtac); lia). done.
Qed.

(** C5: two runs with the same seeded scene and the same input on each of
    their [n] ticks end with identical entities, position included,
    whatever the frame times, close requests and loop bounds of the two
    runs: the final entities are a function of the insertion order and the
    tick sequence. *)
Theorem runs_deterministic (env1 env2 : @Env D)
    (frames1 fuel1 frames2 fuel2 n : nat) (s1 s2 : MainState) :
  entities (world (initState cfg env1)) =
    entities (world (initState cfg env2)) ->
  (forall t, t < n -> tickInput env1 t = tickInput env2 t) ->
  mainLoop env1 frames1 fuel1 (initState cfg env1) = Some s1 ->
  mainLoop env2 frames2 fuel2 (initState cfg env2) = Some s2 ->
  ticksDone s1 = n ->
  ticksDone s2 = n ->
  entities (world s1) = entities (world s2) /\
  position <$> entities (world s1) = position <$> entities (world s2).
Proof.
  intros Hseed Hin H1 H2 Hn1 Hn2.
  apply mainLoop_onTrack in H1; [|done].
  apply mainLoop_onTrack in H2; [|done].
  unfold onTrack in *. rewrite Hn1 in H1. rewrite Hn2 in H2.
  assert (entities (world s1) = entities (world s2)) as ->; [|done].
  rewrite H1, H2. by apply entitiesAfter_ext.
Qed.

End Loop.

(** ** The physics of [Entity.cpp] *)

Section PhysicsProperties.

Variable phys : @Physics F.

Local Abbreviation Entity_Update := (Entity_Update phys).
Local Abbreviation Entity_CheckCollisions := (Entity_CheckCollisions phys).
Local Abbreviation resolve := (resolve phys).
Local Abbreviation applyImpulse := (applyImpulse phys).
Local Abbreviation checkPair := (checkPair phys).
Local Abbreviation detect := (detect phys).

Lemma anchored_refl (e : @Entity F) : anchored e e.
Proof. by split. Qed.

Lemma anchored_trans (e1 e2 e3 : @Entity F) :
  anchored e1 e2 -> anchored e2 e3 -> anchored e1 e3.
Proof.
  intros [Hk12 H12] [Hk23 H23]. split; [congruence|].
  intros Hk. destruct (H12 Hk) as [Hp Hv].
  destruct H23 as [Hp' Hv']; [congruence|]. split; congruence.
Qed.

Lemma anchoredList_refl (l : list (@Entity F)) : anchoredList l l.
Proof. intros p e Hp. exists e. split; [done|apply anchored_refl]. Qed.

Lemma anchoredList_trans (l1 l2 l3 : list (@Entity F)) :
  anchoredList l1 l2 -> anchoredList l2 l3 -> anchoredList l1 l3.
Proof.
  intros H12 H23 p e Hp.
  destruct (H12 p e Hp) as (e2 & Hp2 & Ha2).
  destruct (H23 p e2 Hp2) as (e3 & Hp3 & Ha3).
  exists e3. split; [done|]. by eapply anchored_trans.
Qed.






Lemma checkPair_length (i j : nat) (ents : list (@Entity F)) :
  length (checkPair i j ents) = length ents.
Proof.
  unfold checkPair. destruct (i =? j)%nat; [done|].
  destruct (ents !! i) as [a|]; [|done].
  destruct (ents !! j) as [b|]; [|done].
  destruct (detect a b) as [[n d]|]; [|done].
  destruct (resolve n d a b). by rewrite !length_insert.
Qed.

Lemma Entity_CheckCollisions_length (i : nat) (ents : list (@Entity F)) :
  length (Entity_CheckCollisions i ents) = length ents.
Proof.
  unfold Entity_CheckCollisions. generalize (seq 0 (length ents)).
  intros js. revert ents. induction js as [|j js IH]; intros ents; simpl.
  - done.
  - by rewrite IH, checkPair_length.
Qed.

(** C4: for two circles with radii [r1], [r2] and centers [(xa, ya)],
    [(xb, yb)], let [d] be the distance between the centers as the floats
    give it, [sqrt ((xb - xa)^2 + (yb - ya)^2)].  The test reports a
    collision if and only if [d < r1 + r2]; at [d = r1 + r2] it reports
    none; and the depth of a reported contact is [(r1 + r2) - d]. *)
Theorem circle_collision_iff {OL : OrderLaws F} (a b : @Entity F)
    (r1 r2 d : F) :
  shape a = ShapeCircle r1 ->
  shape b = ShapeCircle r2 ->
  d = fsqrt (fadd (fmul (fsub (x (position b)) (x (position a)))
                        (fsub (x (position b)) (x (position a))))
                  (fmul (fsub (y (position b)) (y (position a)))
                        (fsub (y (position b)) (y (position a))))) ->
  (is_Some (detect a b) <-> flt d (fadd r1 r2) = true) /\
  (d = fadd r1 r2 -> detect a b = None) /\
  (forall n depth,
     detect a b = Some (n, depth) -> depth = fsub (fadd r1 r2) d).
Proof.
  intros Ha Hb ->. unfold detect. rewrite Ha, Hb.
  unfold collideCircleCircle, distance, vlength, vdot, vsub. cbn [x y].
  split; [|split].
  - destruct (flt _ _); split; intros H; try done.
  - intros ->. by rewrite flt_irrefl.
  - intros n depth. destruct (flt _ _); [|done]. by intros [= _ <-].
Qed.

End PhysicsProperties.

End Properties.

(** * The instances satisfy the laws *)

Lemma SFltb_irrefl (a : spec_float) : SFltb a a = false.
Proof.
  unfold SFltb, SFcompare.
  destruct a as [s|s| |s m e]; try destruct s; try done;
    by rewrite Z.compare_refl, Pos.compare_refl.
Qed.

Lemma float_OrderLaws : OrderLaws IEEE.float.
Proof. split. intros a. apply SFltb_irrefl. Qed.

Lemma double_OrderLaws : OrderLaws IEEE.double.
Proof. split. intros a. apply SFltb_irrefl. Qed.

(** * Zeros on IEEE floats *)

Lemma fadd_zero_same (a z : IEEE.float) :
  (exists sg, z = IEEE.mkFloat (S754_zero sg)) ->
  sameUpToZeroSign a (fadd a z).
Proof.
  intros [sg ->]. destruct a as [[sa|sa| |sa m e]]; simpl.
  - destruct sa, sg; simpl; unfold sameUpToZeroSign; auto.
  - by left.
  - by left.
  - by left.
Qed.

Lemma fmul_zero_finite (z m : IEEE.float) :
  (exists sg, z = IEEE.mkFloat (S754_zero sg)) ->
  isFinite m = true ->
  exists sg, fmul z m = IEEE.mkFloat (S754_zero sg).
Proof.
  intros [sg ->]. destruct m as [[sm|sm| |sm mm em]]; simpl; try done;
    intros _; eexists; reflexivity.
Qed.

Lemma fneg_finite (a : IEEE.float) :
  isFinite a = true -> isFinite (fneg a) = true.
Proof. by destruct a as [[sa|sa| |sa m e]]. Qed.













(** * Kinematic entities on IEEE floats *)

Section KinematicOnFloats.

Variable cfg : @Config IEEE.float IEEE.double.
Variable phys : @Physics IEEE.float.













End KinematicOnFloats.

(** * The inner loop at an infinite accumulator *)

(** [inf >= 1.0] and [inf - 1.0 = inf]: the loop never leaves. *)
Lemma stepping_diverges_at_infinity (cfg : @Config IEEE.float IEEE.double)
    (Update : @Entity IEEE.float -> @Entity IEEE.float)
    (CheckCollisions :
       nat -> list (@Entity IEEE.float) -> list (@Entity IEEE.float))
    (env : @Env IEEE.double) (fuel : nat) :
  forall s : @MainState IEEE.float IEEE.double,
    deltaTime s = IEEE.mkDouble (S754_infinity false) ->
    stepping cfg Update CheckCollisions env fuel s = None.
Proof.
  induction fuel as [|fuel IH]; intros s Hs; simpl; rewrite Hs.
  - done.
  - change (fge (IEEE.mkDouble (S754_infinity false)) (ofZ 1)) with true.
    cbv iota. apply IH. simpl. by rewrite Hs.
Qed.

(** * The statements on sample data *)

(** C1 on a run at 20 frames per second: the first frame adds
    [0.05 * 60] to the accumulator and runs three whole ticks. *)
Lemma frame_consumes_whole_ticks_witness :
  (forall i es, length (Demo.CheckCollisions i es) = length es) /\
  fge (decrements 2
         (deltaTime (measureTime Demo.cfg Demo.slowFrames
                       (initState Demo.cfg Demo.slowFrames))))
      (ofZ 1) = true /\
  fge (decrements 3
         (deltaTime (measureTime Demo.cfg Demo.slowFrames
                       (initState Demo.cfg Demo.slowFrames))))
      (ofZ 1) = false /\
  frame Demo.cfg Demo.Update Demo.CheckCollisions Demo.slowFrames 10
    (initState Demo.cfg Demo.slowFrames) =
  Some (present Demo.slowFrames
          (Nat.iter 3
             (stepOnce Demo.cfg Demo.Update Demo.CheckCollisions
                Demo.slowFrames)
             (measureTime Demo.cfg Demo.slowFrames
                (initState Demo.cfg Demo.slowFrames)))).
Proof.
  split; [intros i es; apply Entity_CheckCollisions_length|].
  split; [vm_compute; reflexivity|].
  split; [vm_compute; reflexivity|].
  refine (proj1 (proj2 (frame_consumes_whole_ticks Demo.cfg Demo.Update
    Demo.CheckCollisions _ Demo.slowFrames 3 10
    (initState Demo.cfg Demo.slowFrames) _ _ _))).
  - intros i es. apply Entity_CheckCollisions_length.
  - intros j Hj. destruct j as [|[|[|j]]]; [vm_compute; reflexivity ..|lia].
  - vm_compute; reflexivity.
  - lia.
Defined.


(** In that run the ball does hit the box: the first tick finds a contact
    and pushes the ball from x = 50 to x = 60. *)
Example ball_hits_floor :
  (fun e => x (position e))
    <$> entities (runTicks Demo.cfg Demo.phys (take 1 Demo.floorInputs)
                    Demo.floorScene)
  = [ofZ 60; ofZ 50].
Proof. vm_compute. reflexivity. Qed.


(** Why the amended C2 compares up to the sign of a zero: a kinematic
    circle at [x = -0] that a free circle overlaps from the left is at
    [x = +0] after one tick, by [(-0) - (-0) = +0]; all contacts of the
    tick are finite. *)
Example negative_zero_becomes_positive :
  calmRun Demo.cfg Demo.phys [Demo.idle] Demo.minusZeroScene = true /\
  (fun e => (kinematic e, IEEE.float_bits (x (position e))))
    <$> entities Demo.minusZeroScene !! 0
  = Some (true, S754_zero true) /\
  (fun e => (kinematic e, IEEE.float_bits (x (position e))))
    <$> entities (runTicks Demo.cfg Demo.phys [Demo.idle]
                    Demo.minusZeroScene) !! 0
  = Some (true, S754_zero false).
Proof. vm_compute. repeat split. Qed.

(** C3 as amended, with W, D and RIGHT held. *)
Lemma processInput_gravity_term_witness :
  (entities Demo.scene ++ spawned Demo.cfg Demo.keysHeld) !! 0
    = Some Demo.ball /\
  kinematic Demo.ball = false /\
  exists e',
    entities (exec (processInput Demo.cfg Demo.keysHeld) Demo.scene) !! 0
      = Some e' /\
    y (force e') =
    fadd (y (force Demo.ball))
      (fmul
         (fmul (if keyW Demo.keysHeld then ofZ 5
                else if keyS Demo.keysHeld then fneg (ofZ 5)
                else ofZ 0)
               (fneg (GRAVITY Demo.cfg)))
         (mass Demo.ball)).
Proof.
  split; [reflexivity|]. split; [reflexivity|].
  exact (processInput_gravity_term Demo.cfg Demo.keysHeld Demo.scene 0
           Demo.ball eq_refl eq_refl).
Defined.

(** C3 as stated fails: on a tick with no key held, [force.y] of the free
    ball of the sample scene stays as it was, which is not its value plus
    [-GRAVITY * mass]. *)
Lemma gravity_every_tick_counterexample :
  entities Demo.scene !! 0 = Some Demo.ball /\
  kinematic Demo.ball = false /\
  (fun e => y (force e))
    <$> entities (exec (processInput Demo.cfg Demo.idle) Demo.scene) !! 0
    = Some (y (force Demo.ball)) /\
  y (force Demo.ball) <>
    fadd (y (force Demo.ball))
         (fmul (fneg (GRAVITY Demo.cfg)) (mass Demo.ball)).
Proof.
  split; [reflexivity|]. split; [reflexivity|].
  split; [vm_compute; reflexivity|].
  vm_compute. discriminate.
Qed.

(** C4 on two circles of radius 10 whose centers, (0, 0) and (12, 16),
    are exactly 20 apart: no collision. *)
Lemma circle_collision_iff_witness :
  shape Demo.touchingA = ShapeCircle (ofZ 10) /\
  shape Demo.diagonal = ShapeCircle (ofZ 10) /\
  (ofZ 20 : IEEE.float) =
    fsqrt (fadd (fmul (fsub (ofZ 12) (ofZ 0)) (fsub (ofZ 12) (ofZ 0)))
                (fmul (fsub (ofZ 16) (ofZ 0)) (fsub (ofZ 16) (ofZ 0)))) /\
  (ofZ 20 : IEEE.float) = fadd (ofZ 10) (ofZ 10) /\
  detect Demo.phys Demo.touchingA Demo.diagonal = None.
Proof.
  split; [reflexivity|]. split; [reflexivity|].
  split; [vm_compute; reflexivity|].
  split; [vm_compute; reflexivity|].
  refine (proj1 (proj2 (circle_collision_iff Demo.phys (OL := float_OrderLaws)
    Demo.touchingA Demo.diagonal (ofZ 10) (ofZ 10) (ofZ 20 : IEEE.float)
    eq_refl eq_refl _)) _); vm_compute; reflexivity.
Defined.

(** Circles whose centers are 10 apart collide, with depth 10. *)
Example overlapping_circles_collide :
  snd <$> detect Demo.phys Demo.touchingA Demo.overlapping
  = Some (ofZ 10).
Proof. vm_compute. reflexivity. Qed.

(** C5 on two runs of three ticks, one at 20 and one at 60 frames per
    second. *)
Lemma runs_deterministic_witness :
  exists s1 s2,
    mainLoop Demo.cfg Demo.Update Demo.CheckCollisions Demo.slowFrames 5 10
      (initState Demo.cfg Demo.slowFrames) = Some s1 /\
    mainLoop Demo.cfg Demo.Update Demo.CheckCollisions Demo.fastFrames 5 10
      (initState Demo.cfg Demo.fastFrames) = Some s2 /\
    framesDone s1 = 1 /\ framesDone s2 = 3 /\
    ticksDone s1 = 3 /\ ticksDone s2 = 3 /\
    entities (world s1) = entities (world s2).
Proof.
  set (r1 := mainLoop Demo.cfg Demo.Update Demo.CheckCollisions
               Demo.slowFrames 5 10 (initState Demo.cfg Demo.slowFrames)).
  set (r2 := mainLoop Demo.cfg Demo.Update Demo.CheckCollisions
               Demo.fastFrames 5 10 (initState Demo.cfg Demo.fastFrames)).
  set (d := initState Demo.cfg Demo.slowFrames).
  assert (H1 : r1 = Some (default d r1)) by (vm_compute; reflexivity).
  assert (H2 : r2 = Some (default d r2)) by (vm_compute; reflexivity).
  exists (default d r1), (default d r2).
  split; [exact H1|]. split; [exact H2|].
  split; [vm_compute; reflexivity|]. split; [vm_compute; reflexivity|].
  split; [vm_compute; reflexivity|]. split; [vm_compute; reflexivity|].
  refine (proj1 (runs_deterministic Demo.cfg Demo.Update Demo.CheckCollisions
    _ Demo.slowFrames Demo.fastFrames 5 10 5 10 3 _ _ _ _ H1 H2 _ _)).
  - intros i es. apply Entity_CheckCollisions_length.
  - vm_compute; reflexivity.
  - intros t _. reflexivity.
  - vm_compute; reflexivity.
  - vm_compute; reflexivity.
Defined.

(** C6 as amended, on a primary click and on a secondary click. *)
Lemma click_appends_entity_witness :
  mouseButton1 Demo.primaryClick = true /\
  mouseButton1 Demo.secondaryClick = false /\
  mouseButton2 Demo.secondaryClick = true /\
  (exists e,
     entities (exec (processInput Demo.cfg Demo.primaryClick) Demo.scene) =
       (applyInput Demo.cfg (movementOf Demo.primaryClick)
          (rotationOf Demo.primaryClick) <$> entities Demo.scene) ++ [e] /\
     kinematic e = false /\
     position e = cursorPosition Demo.cfg Demo.primaryClick) /\
  (exists e,
     entities (exec (processInput Demo.cfg Demo.secondaryClick) Demo.scene) =
       (applyInput Demo.cfg (movementOf Demo.secondaryClick)
          (rotationOf Demo.secondaryClick) <$> entities Demo.scene) ++ [e] /\
     kinematic e = true /\
     position e = cursorPosition Demo.cfg Demo.secondaryClick).
Proof.
  split; [reflexivity|]. split; [reflexivity|]. split; [reflexivity|].
  split.
  - exact (proj1 (click_appends_entity Demo.cfg Demo.primaryClick Demo.scene)
             eq_refl).
  - exact (proj2 (click_appends_entity Demo.cfg Demo.secondaryClick
             Demo.scene) eq_refl eq_refl).
Defined.

(** The cursor at window coordinates (100, 200) of a window 600 high is
    the point (100, 400) of the scene. *)
Example cursor_in_scene_coordinates :
  cursorPosition Demo.cfg Demo.primaryClick
  = mkVector2 (ofZ 100) (ofZ 400).
Proof. vm_compute. reflexivity. Qed.

(** C6 as stated fails: on a tick with both buttons pressed, thus with a
    secondary click, the one entity appended to the empty collection is
    not kinematic. *)
Lemma secondary_click_counterexample :
  mouseButton2 Demo.bothButtons = true /\
  kinematic <$> entities (exec (processInput Demo.cfg Demo.bothButtons)
                            emptyWorld)
  = [false].
Proof. split; [reflexivity|]. vm_compute. reflexivity. Qed.

(** C7 on the kinematic box of the sample scene, with RIGHT held: force,
    velocity and position stay, the rotation goes up by one. *)
Lemma processInput_kinematic_frame_witness :
  (entities Demo.scene ++ spawned Demo.cfg Demo.keysHeld) !! 3
    = Some Demo.fixedCrate /\
  kinematic Demo.fixedCrate = true /\
  type Demo.fixedCrate = BOX /\
  exists e',
    entities (exec (processInput Demo.cfg Demo.keysHeld) Demo.scene) !! 3
      = Some e' /\
    force e' = force Demo.fixedCrate /\
    velocity e' = velocity Demo.fixedCrate /\
    position e' = position Demo.fixedCrate /\
    rotation e' = fadd (rotation Demo.fixedCrate) (ofZ 1).
Proof.
  split; [reflexivity|]. split; [reflexivity|]. split; [reflexivity|].
  destruct (processInput_kinematic_frame Demo.cfg Demo.keysHeld Demo.scene 3
              Demo.fixedCrate eq_refl) as (e' & He' & Hk & Hb & _ & _).
  exists e'. destruct (Hk eq_refl) as (Hf & Hv & Hp).
  repeat split; try assumption. exact (Hb eq_refl).
Defined.



(** C10 with both buttons pressed: one circle, non-kinematic. *)
Lemma input_creates_circles_only_witness :
  mouseButton1 Demo.bothButtons = true /\
  mouseButton2 Demo.bothButtons = true /\
  exists news e,
    entities (exec (processInput Demo.cfg Demo.bothButtons) Demo.scene) =
      (applyInput Demo.cfg (movementOf Demo.bothButtons)
         (rotationOf Demo.bothButtons) <$> entities Demo.scene) ++ news /\
    news = [e] /\ kinematic e = false /\ type e = CIRCLE.
Proof.
  split; [reflexivity|]. split; [reflexivity|].
  destruct (input_creates_circles_only Demo.cfg Demo.bothButtons Demo.scene
              Demo.slowFrames) as (news & Hn & _ & Hc & _ & _ & H1).
  destruct (H1 eq_refl) as (e & -> & Hk).
  exists [e], e. split; [exact Hn|]. split; [reflexivity|].
  split; [exact Hk|]. exact (proj1 (Forall_singleton _ e) Hc).
Defined.

(** The seeded scene of the sample run. *)
Example seeded_scene_types :
  (fun e => (type e, kinematic e))
    <$> entities (world (initState Demo.cfg Demo.slowFrames))
  = [(BOX, false); (CIRCLE, false); (CIRCLE, false)].
Proof. vm_compute. reflexivity. Qed.

(** * More on [processInput] and the loop of [main] *)

Section RunProperties.

Context {F D : Type} {NF : Num F} {ND : Num D} {ND2F : Narrow D F}.
Variable cfg : @Config F D.

Lemma applyInput_material (mv : @Vector2 F) (rot : F) (e : @Entity F) :
  color (applyInput cfg mv rot e) = color e /\
  bounciness (applyInput cfg mv rot e) = bounciness e /\
  friction (applyInput cfg mv rot e) = friction e /\
  deactivation (applyInput cfg mv rot e) = deactivation e.
Proof.
  unfold applyInput, isKinematic.
  destruct (kinematic e), (type e) eqn:Ht; simpl; rewrite ?Ht; done.
Qed.

Lemma processInput_length (inp : TickInput) (w : @World F) :
  length (entities (exec (processInput cfg inp) w)) =
  length (entities w) + (if clicked inp then 1 else 0).
Proof.
  rewrite processInput_exec. cbn [entities].
  rewrite length_fmap, length_app. unfold spawned, clicked.
  by destruct (mouseButton1 inp), (mouseButton2 inp).
Qed.

(** [processInput] never removes or reorders an entity and never moves
    one: every entity keeps its index, position, velocity, mass, shape
    kind, kinematic flag, shape and material; only [force] and [rotation]
    can change; and the collection grows by exactly one entity on a tick
    with a button press and not at all otherwise. *)
Theorem processInput_touches_force_and_rotation_only (inp : TickInput)
    (w : World) :
  length (entities (exec (processInput cfg inp) w)) =
    length (entities w) + (if clicked inp then 1 else 0) /\
  calls (exec (processInput cfg inp) w) = calls w /\
  forall (i : nat) (e : Entity),
    entities w !! i = Some e ->
    exists e',
      entities (exec (processInput cfg inp) w) !! i = Some e' /\
      position e' = position e /\ velocity e' = velocity e /\
      mass e' = mass e /\ type e' = type e /\
      kinematic e' = kinematic e /\ shape e' = shape e /\
      color e' = color e /\ bounciness e' = bounciness e /\
      friction e' = friction e /\ deactivation e' = deactivation e.
Proof.
  split; [apply processInput_length|].
  rewrite processInput_exec. cbn [entities calls]. split; [done|].
  - intros i e Hi.
    exists (applyInput cfg (movementOf inp) (rotationOf inp) e). split.
    + rewrite list_lookup_fmap, lookup_app_l by (by eapply lookup_lt_Some).
      by rewrite Hi.
    + destruct (applyInput_frame cfg (movementOf inp) (rotationOf inp) e)
        as (? & ? & ? & ? & ? & ?).
      destruct (applyInput_material (movementOf inp) (rotationOf inp) e)
        as (? & ? & ? & ?).
      repeat split; assumption.
Qed.

Section Loop.

Variable Update : @Entity F -> @Entity F.
Variable CheckCollisions : nat -> list (@Entity F) -> list (@Entity F).

Local Abbreviation tick := (tick cfg Update CheckCollisions).
Local Abbreviation stepOnce := (stepOnce cfg Update CheckCollisions).
Local Abbreviation stepping := (stepping cfg Update CheckCollisions).
Local Abbreviation frame := (frame cfg Update CheckCollisions).
Local Abbreviation mainLoop := (mainLoop cfg Update CheckCollisions).
Local Abbreviation main := (main cfg Update CheckCollisions).
Local Abbreviation entitiesAfter :=
  (entitiesAfter cfg Update CheckCollisions).

(** When the inner loop returns, it has run some number of ticks and its
    guard is false. *)
Lemma stepping_result (env : @Env D) (fuel : nat) :
  forall s s' : @MainState F D,
    stepping env fuel s = Some s' ->
    fge (deltaTime s') (ofZ 1) = false /\
    exists k, s' = Nat.iter k (stepOnce env) s.
Proof.
  induction fuel as [|fuel IH]; intros s s'; simpl.
  - destruct (fge _ _) eqn:Hg; [done|]. intros [= <-].
    split; [done|]. by exists 0.
  - destruct (fge _ _) eqn:Hg.
    + intros H. destruct (IH _ _ H) as (Hs' & k & ->).
      split; [done|]. exists (S k). by rewrite Nat.iter_succ_r.
    + intros [= <-]. split; [done|]. by exists 0.
Qed.

(** After every frame that completes, the accumulator is not [>= 1.0]:
    less than one tick of time is carried over (or the accumulator is
    NaN); [lastTime] is the clock reading of the frame, and the ticks run
    took the accumulator down by one each. *)
Theorem frame_leaves_less_than_a_tick (env : @Env D) (fuel : nat)
    (s s' : @MainState F D) :
  frame env fuel s = Some s' ->
  fge (deltaTime s') (ofZ 1) = false /\
  lastTime s' = glfwGetTime env (S (framesDone s)) /\
  framesDone s' = S (framesDone s) /\
  exists k,
    ticksDone s' = ticksDone s + k /\
    deltaTime s' =
      decrements k
        (fadd (deltaTime s)
           (fmul (fsub (glfwGetTime env (S (framesDone s))) (lastTime s))
                 (TICKS_PER_SECOND cfg))).
Proof.
  unfold frame.
  destruct (stepping env fuel (measureTime cfg env s)) as [s1|] eqn:H1;
    [|done].
  intros [= <-]. destruct (stepping_result env fuel _ _ H1) as (Hg & k & ->).
  destruct (stepOnce_iter cfg Update CheckCollisions env k
              (measureTime cfg env s)) as (Hd & Ht & Hl & Hf).
  cbn [present deltaTime lastTime framesDone ticksDone].
  split; [done|]. split; [by rewrite Hl|]. split; [by rewrite Hf|].
  exists k. split; [by rewrite Ht|]. by rewrite Hd.
Qed.

Lemma present_world (env : @Env D) (s : @MainState F D) :
  world (present env s) =
  mkWorld (entities (world s))
    (windowShouldClose (world s) || closeRequested env (framesDone s))
    (calls (world s)
     ++ (CallRender <$> seq 0 (length (entities (world s))))
     ++ [CallSwapBuffers; CallPollEvents]).
Proof.
  unfold present. cbn [world].
  rewrite !exec_seq, exec_when. unfold renderAll.
  rewrite forEntities_foldl by done. rewrite exec_record_foldl.
  destruct (closeRequested env (framesDone s)),
    (windowShouldClose (world s)) eqn:Hc;
    unfold exec, record, glfwSetWindowShouldClose; simpl;
    rewrite ?Hc, <- ?app_assoc; done.
Qed.

Hypothesis CheckCollisions_length :
  forall i es, length (CheckCollisions i es) = length es.

Lemma tickCalls_isTickCall (n : nat) :
  forallb isTickCall (@tickCalls n) = true.
Proof.
  unfold tickCalls. rewrite !forallb_app. simpl.
  assert (forall l, forallb isTickCall (map (@CallUpdate) l) = true) as ->
    by (intros l; induction l; simpl; done).
  assert (forall l, forallb isTickCall (map (@CallCheckCollisions) l) = true)
    as -> by (intros l; induction l; simpl; done).
  done.
Qed.

Lemma stepOnce_iter_world (env : @Env D) (k : nat) (s : @MainState F D) :
  exists tl,
    calls (world (Nat.iter k (stepOnce env) s)) = calls (world s) ++ tl /\
    forallb isTickCall tl = true /\
    windowShouldClose (world (Nat.iter k (stepOnce env) s)) =
      windowShouldClose (world s) || escapeDuring env (ticksDone s) k.
Proof.
  induction k as [|k (tl & Hc & Ht & Hw)].
  - exists []. simpl. rewrite app_nil_r, orb_false_r. done.
  - destruct (stepOnce_iter cfg Update CheckCollisions env k s)
      as (_ & Hticks & _).
    change (Nat.iter (S k) (stepOnce env) s)
      with (stepOnce env (Nat.iter k (stepOnce env) s)).
    set (sk := Nat.iter k (stepOnce env) s) in *.
    change (world (stepOnce env sk))
      with (exec (tick (tickInput env (ticksDone sk))) (world sk)).
    rewrite tick_exec by done. cbn [calls windowShouldClose].
    exists (tl ++ tickCalls
              (length (entities (exec (processInput cfg
                 (tickInput env (ticksDone sk))) (world sk))))).
    rewrite Hc, Hw, Hticks, <- app_assoc. split; [done|]. split.
    + rewrite forallb_app, Ht. apply tickCalls_isTickCall.
    + unfold escapeDuring. rewrite seq_S, existsb_app. simpl.
      by rewrite orb_false_r, orb_assoc.
Qed.

(** In a frame all simulation calls come before any render call: the calls
    of a completed frame are the calls of its ticks, then [Render] once
    for every entity in the order of the collection, then the buffer swap
    and the event poll. *)
Theorem frame_renders_after_all_ticks (env : @Env D) (fuel : nat)
    (s s' : @MainState F D) :
  frame env fuel s = Some s' ->
  exists tl,
    calls (world s') =
      calls (world s) ++ tl
      ++ (CallRender <$> seq 0 (length (entities (world s'))))
      ++ [CallSwapBuffers; CallPollEvents] /\
    forallb isTickCall tl = true.
Proof.
  unfold frame.
  destruct (stepping env fuel (measureTime cfg env s)) as [s1|] eqn:H1;
    [|done].
  intros [= <-]. destruct (stepping_result env fuel _ _ H1) as (_ & k & ->).
  destruct (stepOnce_iter_world env k (measureTime cfg env s))
    as (tl & Hc & Ht & _).
  exists tl. rewrite present_world. cbn [calls entities].
  rewrite Hc. cbn [measureTime world]. by rewrite <- app_assoc.
Qed.

Lemma mainLoop_closed (env : @Env D) (frames fuel : nat) :
  forall s s' : @MainState F D,
    mainLoop env frames fuel s = Some s' ->
    windowShouldClose (world s') = true.
Proof.
  induction frames as [|frames IH]; intros s s'; simpl.
  - destruct (windowShouldClose (world s)) eqn:Hc; [|done].
    by intros [= <-].
  - destruct (windowShouldClose (world s)) eqn:Hc; [by intros [= <-]|].
    destruct (frame env fuel s) as [s1|]; [|done]. apply IH.
Qed.

Lemma mainLoop_at_closed (env : @Env D) (frames fuel : nat)
    (s : @MainState F D) :
  windowShouldClose (world s) = true -> mainLoop env frames fuel s = Some s.
Proof. intros Hc. destruct frames; simpl; by rewrite Hc. Qed.

(** The close flag is never cleared, and it is set by exactly two things:
    Escape held on a tick, and a close request at the event poll.  Escape
    takes effect at the end of its frame only: the frame still runs all its
    ticks and is presented, and once the flag is set the loop runs no
    further frame, whatever its bounds. *)
Theorem close_flag_after_frame (env : @Env D) (fuel : nat)
    (s s' : @MainState F D) :
  frame env fuel s = Some s' ->
  windowShouldClose (world s') =
    windowShouldClose (world s)
    || escapeDuring env (ticksDone s) (ticksDone s' - ticksDone s)
    || closeRequested env (framesDone s) /\
  (windowShouldClose (world s') = true ->
   forall frames' fuel', mainLoop env frames' fuel' s' = Some s').
Proof.
  unfold frame.
  destruct (stepping env fuel (measureTime cfg env s)) as [s1|] eqn:H1;
    [|done].
  intros [= <-]. destruct (stepping_result env fuel _ _ H1) as (_ & k & ->).
  destruct (stepOnce_iter_world env k (measureTime cfg env s))
    as (tl & _ & _ & Hw).
  destruct (stepOnce_iter cfg Update CheckCollisions env k
              (measureTime cfg env s)) as (_ & Ht & _ & Hf).
  split.
  - rewrite present_world. cbn [windowShouldClose present ticksDone].
    rewrite Hw, Ht, Hf. cbn [measureTime world ticksDone framesDone].
    by replace (ticksDone s + k - ticksDone s) with k by lia.
  - intros Hc frames' fuel'. by apply mainLoop_at_closed.
Qed.

Lemma tickEntities_length (inp : TickInput) (es : list (@Entity F)) :
  length (tickEntities cfg Update CheckCollisions inp es) =
  length es + (if clicked inp then 1 else 0).
Proof.
  unfold tickEntities, checkAll.
  rewrite (checkAll_prefix_length CheckCollisions CheckCollisions_length).
  rewrite !length_fmap, length_app. unfold spawned, clicked.
  by destruct (mouseButton1 inp), (mouseButton2 inp).
Qed.

Lemma entitiesAfter_length (env : @Env D) (n : nat) :
  length (entitiesAfter env n) = 3 + clicksBefore env n.
Proof.
  induction n as [|n IH].
  - change (entitiesAfter env 0) with (entities (world (initState cfg env))).
    by rewrite initState_world.
  - change (entitiesAfter env (S n))
      with (tickEntities cfg Update CheckCollisions (tickInput env n)
              (entitiesAfter env n)).
    rewrite tickEntities_length, IH. simpl. lia.
Qed.

Lemma mainLoop_entity_count (env : @Env D) (frames fuel : nat)
    (s : @MainState F D) :
  mainLoop env frames fuel (initState cfg env) = Some s ->
  length (entities (world s)) = 3 + clicksBefore env (ticksDone s).
Proof.
  intros H.
  apply (mainLoop_onTrack cfg Update CheckCollisions CheckCollisions_length)
    in H.
  - unfold onTrack in H. rewrite H. apply entitiesAfter_length.
  - unfold onTrack. done.
Qed.

(** No entity is ever removed: when the loop is left, the collection holds
    the three seeded entities and one more for every tick on which a
    button press was seen. *)
Theorem entity_count_after_run (env : @Env D) (frames fuel : nat)
    (s : @MainState F D) :
  mainLoop env frames fuel (initState cfg env) = Some s ->
  length (entities (world s)) = 3 + clicksBefore env (ticksDone s) /\
  3 <= length (entities (world s)).
Proof.
  intros H. rewrite (mainLoop_entity_count env frames fuel s H).
  split; [done|lia].
Qed.

(** [main] returns -1 exactly when the window or GLAD could not be set up,
    and then nothing was spawned; otherwise, when it returns, the code is 0,
    the close flag is set and the seeded entities are still there. *)
Theorem main_exit_codes (env : @Env D) (frames fuel : nat) (code : Z)
    (w : @World F) :
  main env frames fuel = Some (code, w) ->
  (code = (-1)%Z /\ w = emptyWorld /\
   windowCreated env && gladLoaded env = false) \/
  (code = 0%Z /\ windowCreated env && gladLoaded env = true /\
   windowShouldClose w = true /\ 3 <= length (entities w)).
Proof.
  unfold main.
  destruct (windowCreated env), (gladLoaded env); simpl;
    try (intros [= <- <-]; left; done).
  destruct (mainLoop env frames fuel (initState cfg env)) as [s|] eqn:H;
    [|done].
  intros [= <- <-]. right. split; [done|]. split; [done|]. split.
  - by eapply mainLoop_closed.
  - rewrite (mainLoop_entity_count env frames fuel s H). lia.
Qed.

(** An entity created by a click takes part in the tick that created it:
    it receives the input force of that tick, and [Update] and
    [CheckCollisions] are called on it, at the index one past the old
    collection. *)
Theorem spawned_entity_joins_tick (inp : TickInput) (w : @World F) :
  clicked inp = true ->
  (exists e0,
     spawned cfg inp = [e0] /\
     entities (exec (processInput cfg inp) w) !! length (entities w) =
       Some (applyInput cfg (movementOf inp) (rotationOf inp) e0)) /\
  calls (exec (tick inp) w) =
    calls w ++ tickCalls (S (length (entities w))) /\
  length (entities (exec (tick inp) w)) = S (length (entities w)).
Proof.
  intros Hc. split; [|split].
  - assert (exists e0, spawned cfg inp = [e0]) as [e0 He0].
    { unfold spawned. unfold clicked in Hc.
      destruct (mouseButton1 inp), (mouseButton2 inp); try done; eauto. }
    exists e0. split; [done|].
    rewrite processInput_exec. cbn [entities].
    rewrite list_lookup_fmap, He0, lookup_app_r by lia.
    by rewrite Nat.sub_diag.
  - rewrite tick_exec by done. cbn [calls].
    rewrite processInput_length, Hc. do 2 f_equal. lia.
  - rewrite tick_exec by done. cbn [entities].
    rewrite tickEntities_length, Hc. lia.
Qed.

End Loop.

End RunProperties.

(** * The meshes *)

Section MeshProperties.

Context {F : Type} {NF : Num F}.
Variable cosf sinf atanf : F -> F.
Variable TRIANGLE_RESOLUTION : Z.

Local Abbreviation circleLoop :=
  (circleLoop cosf sinf atanf TRIANGLE_RESOLUTION).
Local Abbreviation prepareCircleModel :=
  (prepareCircleModel cosf sinf atanf TRIANGLE_RESOLUTION).
Local Abbreviation thetaAt := (thetaAt atanf TRIANGLE_RESOLUTION).
Local Abbreviation rimFrom :=
  (rimFrom cosf sinf atanf TRIANGLE_RESOLUTION).

Lemma wrap32_small (z : Z) : (0 <= z < 2 ^ 32)%Z -> wrap32 z = z.
Proof. intros Hz. unfold wrap32. by apply Z.mod_small. Qed.

(** The loop from iteration [k] with [n] iterations to go. *)
Lemma circleLoop_run (n : nat) :
  forall (k fuel : nat) (vs : list F) (ids : list Z),
    (Z.of_nat (k + n) = TRIANGLE_RESOLUTION + 1)%Z ->
    (TRIANGLE_RESOLUTION + 2 < 2 ^ 32)%Z ->
    n <= fuel ->
    circleLoop fuel (Z.of_nat k) (thetaAt k) vs ids =
    Some (mkMeshData F (vs ++ rimFrom k n) (ids ++ fanFrom k n)).
Proof.
  induction n as [|n IH]; intros k fuel vs ids Hk Hmax Hfuel.
  - unfold rimFrom, fanFrom. simpl. rewrite !app_nil_r.
    destruct fuel; simpl;
      (destruct (Z.leb_spec (Z.of_nat k) TRIANGLE_RESOLUTION); [lia|done]).
  - destruct fuel as [|fuel]; [lia|]. simpl.
    destruct (Z.leb_spec (Z.of_nat k) TRIANGLE_RESOLUTION); [|lia].
    rewrite !wrap32_small by lia.
    replace (Z.of_nat k + 1)%Z with (Z.of_nat (S k)) by lia.
    change (fadd (thetaAt k) (thetaStep atanf TRIANGLE_RESOLUTION))
      with (thetaAt (S k)).
    rewrite IH by lia. unfold rimFrom, fanFrom. simpl.
    rewrite <- !app_assoc. simpl. do 3 f_equal. do 2 f_equal. lia.
Qed.

Lemma length_rimFrom (k n : nat) : length (rimFrom k n) = 2 * n.
Proof.
  unfold rimFrom. revert k. induction n as [|n IH]; intros k; simpl; [done|].
  rewrite IH. lia.
Qed.

Lemma length_fanFrom (k n : nat) : length (fanFrom k n) = 3 * n.
Proof.
  unfold fanFrom. revert k. induction n as [|n IH]; intros k; simpl; [done|].
  rewrite IH. lia.
Qed.

Lemma fanFrom_snoc (k n : nat) :
  fanFrom k (S n) =
  fanFrom k n ++ [0; Z.of_nat (k + n) + 1; Z.of_nat (k + n) + 2]%Z.
Proof. unfold fanFrom. by rewrite seq_S, flat_map_app. Qed.

Lemma fanFrom_bound (k n : nat) :
  Forall (fun i => (0 <= i < Z.of_nat (k + n) + 2)%Z) (fanFrom k n).
Proof.
  induction n as [|n IH]; [constructor|].
  rewrite fanFrom_snoc. apply Forall_app. split.
  - eapply list.Forall_impl; [exact IH|]. simpl. intros i Hi. lia.
  - repeat constructor; lia.
Qed.

Lemma prepareCircleModel_eq (fuel : nat) :
  (0 <= TRIANGLE_RESOLUTION)%Z ->
  (TRIANGLE_RESOLUTION + 2 < 2 ^ 32)%Z ->
  Z.to_nat TRIANGLE_RESOLUTION + 1 <= fuel ->
  prepareCircleModel fuel =
  Some (mkMeshData F
          ([ofZ 0; ofZ 0] ++ rimFrom 0 (Z.to_nat TRIANGLE_RESOLUTION + 1))
          (fanFrom 0 (Z.to_nat TRIANGLE_RESOLUTION + 1))).
Proof.
  intros H0 Hmax Hfuel. unfold prepareCircleModel.
  by rewrite (circleLoop_run (Z.to_nat TRIANGLE_RESOLUTION + 1) 0 fuel)
    by (lia || done).
Qed.

Lemma circle_vertexCount (n : nat) (ids : list Z) :
  vertexCount (mkMeshData F ([ofZ 0; ofZ 0] ++ rimFrom 0 (n + 1)) ids)
  = (Z.of_nat n + 2)%Z.
Proof.
  unfold vertexCount. cbn [vertices].
  rewrite length_app, length_rimFrom. simpl length.
  replace (Z.of_nat (2 + 2 * (n + 1))) with ((Z.of_nat n + 2) * 2)%Z by lia.
  by rewrite Z.div_mul.
Qed.

(** [prepareCircleModel] with [TRIANGLE_RESOLUTION = N] ends after [N + 1]
    iterations with [N + 2] vertices, the origin and the [N + 1] points
    [(cosf theta, sinf theta)] for [theta] grown from [0.0f] by repeated
    addition of [2 * pi / N], and with the [N + 1] triangles
    [(0, j + 1, j + 2)], [j = 0, ..., N]. *)
Theorem prepareCircleModel_mesh (fuel : nat) :
  (0 <= TRIANGLE_RESOLUTION)%Z ->
  (TRIANGLE_RESOLUTION + 2 < 2 ^ 32)%Z ->
  Z.to_nat TRIANGLE_RESOLUTION + 1 <= fuel ->
  exists m,
    prepareCircleModel fuel = Some m /\
    vertices m =
      [ofZ 0; ofZ 0] ++ rimFrom 0 (Z.to_nat TRIANGLE_RESOLUTION + 1) /\
    indices m = fanFrom 0 (Z.to_nat TRIANGLE_RESOLUTION + 1) /\
    vertexCount m = (TRIANGLE_RESOLUTION + 2)%Z /\
    Z.of_nat (length (indices m)) = (3 * (TRIANGLE_RESOLUTION + 1))%Z.
Proof.
  intros H0 Hmax Hfuel. eexists.
  split; [by apply prepareCircleModel_eq|].
  split; [done|]. split; [done|]. split.
  - rewrite circle_vertexCount. lia.
  - cbn [indices]. rewrite length_fanFrom. lia.
Qed.

(** The last triangle of the circle mesh reaches one past the vertex
    array: the indices are those of the triangles before it, all of them
    valid, followed by [(0, N + 1, N + 2)], and [N + 2] is the number of
    vertices. *)
Theorem prepareCircleModel_last_index_out_of_range (fuel : nat) :
  (0 <= TRIANGLE_RESOLUTION)%Z ->
  (TRIANGLE_RESOLUTION + 2 < 2 ^ 32)%Z ->
  Z.to_nat TRIANGLE_RESOLUTION + 1 <= fuel ->
  exists m front,
    prepareCircleModel fuel = Some m /\
    indices m =
      front ++ [0; vertexCount m - 1; vertexCount m]%Z /\
    Forall (fun i => (0 <= i < vertexCount m)%Z) front /\
    ~ Forall (fun i => (0 <= i < vertexCount m)%Z) (indices m).
Proof.
  intros H0 Hmax Hfuel.
  exists (mkMeshData F
            ([ofZ 0; ofZ 0] ++ rimFrom 0 (Z.to_nat TRIANGLE_RESOLUTION + 1))
            (fanFrom 0 (Z.to_nat TRIANGLE_RESOLUTION + 1))),
         (fanFrom 0 (Z.to_nat TRIANGLE_RESOLUTION)).
  rewrite circle_vertexCount, Z2Nat.id by done. cbn [indices].
  assert (Hi : fanFrom 0 (Z.to_nat TRIANGLE_RESOLUTION + 1) =
               fanFrom 0 (Z.to_nat TRIANGLE_RESOLUTION)
               ++ [0; TRIANGLE_RESOLUTION + 2 - 1;
                   TRIANGLE_RESOLUTION + 2]%Z).
  { rewrite Nat.add_1_r, fanFrom_snoc. do 3 f_equal; [lia|f_equal; lia]. }
  split; [|split; [exact Hi|split]].
  - by apply prepareCircleModel_eq.
  - eapply list.Forall_impl; [apply fanFrom_bound|]. simpl. intros i Hi'. lia.
  - rewrite Hi. intros Hall. apply Forall_app in Hall as [_ Hall].
    inversion Hall as [|? ? _ Hall1]; subst.
    inversion Hall1 as [|? ? _ Hall2]; subst.
    inversion Hall2 as [|? ? Hbad _]; subst. lia.
Qed.

(** The box mesh has four vertices and two triangles whose indices are all
    valid, but the four vertices are one and the same point: every
    coordinate is [0.5f]. *)
Theorem prepareBoxModel_degenerate :
  vertexCount (@prepareBoxModel F NF) = 4%Z /\
  Forall (fun i => (0 <= i < vertexCount (@prepareBoxModel F NF))%Z)
    (indices (@prepareBoxModel F NF)) /\
  Forall (fun c => c = lit 5 1) (vertices (@prepareBoxModel F NF)).
Proof.
  split; [done|]. split.
  - change (vertexCount (@prepareBoxModel F NF)) with 4%Z.
    repeat constructor; lia.
  - repeat constructor.
Qed.

End MeshProperties.

(** * Shader loading *)

Section ShaderProperties.

Import Shaders.

Variable drv : Driver.

Lemma GLuint_int_GLuint (u : Z) :
  (0 <= u < 2 ^ 32)%Z -> GLuint_of_int (int_of_GLuint u) = u.
Proof.
  intros Hu. unfold GLuint_of_int, int_of_GLuint, wrap32.
  destruct (Z.ltb_spec u (2 ^ 31)).
  - apply Z.mod_small. lia.
  - replace (u - 2 ^ 32)%Z with (u + (-1) * 2 ^ 32)%Z by lia.
    rewrite Z.mod_add by lia. apply Z.mod_small. lia.
Qed.

Lemma int_of_properName (u : Z) :
  properName u -> int_of_GLuint u <> (-1)%Z.
Proof.
  unfold properName, int_of_GLuint. intros Hu.
  destruct (Z.ltb_spec u (2 ^ 31)); lia.
Qed.

(** One [compileShader], as a function of the state. *)
Lemma compileShader_run (path : String.string) (t : ShaderType)
    (st : GLState) :
  let name := shaderName drv (shadersCreated st) in
  let src := sourceOf drv path in
  (0 <= name < 2 ^ 32)%Z ->
  compileShader drv path t st =
  (if compileStatus drv t src then int_of_GLuint name else (-1)%Z,
   mkGLState (glCalls st ++ compileShaderCalls drv path t name)
     ((name, mkShaderObject t src true) :: shaderObjects st)
     (S (shadersCreated st))).
Proof.
  intros name src Hname. subst src.
  unfold compileShader, compileShaderCalls, readFile, sourceOf.
  destruct (fileContents drv path) as [buf|] eqn:Hf;
    destruct (compileStatus drv t _) eqn:Hc;
    unfold glbind, glret, cout, called, glCreateShader, glShaderSource,
      glCompileShader, glGetShaderiv, glGetShaderInfoLog;
    cbn -[int_of_GLuint GLuint_of_int String.append Z.eqb]; fold name;
    repeat (rewrite GLuint_int_GLuint by done);
    repeat (rewrite Z.eqb_refl;
            cbn -[int_of_GLuint GLuint_of_int String.append Z.eqb]);
    rewrite Hc; cbn -[int_of_GLuint GLuint_of_int String.append Z.eqb];
    repeat (rewrite GLuint_int_GLuint by done);
    rewrite <- ?app_assoc; reflexivity.
Qed.

(** [compileShaderProgram], as a function of the state. *)
Lemma compileShaderProgram_pair (v f : String.string) (st : GLState) :
  let p := programName drv in
  let n0 := shaderName drv (shadersCreated st) in
  let n1 := shaderName drv (S (shadersCreated st)) in
  let okV := compileStatus drv GL_VERTEX_SHADER (sourceOf drv v) in
  let okF := compileStatus drv GL_FRAGMENT_SHADER (sourceOf drv f) in
  properName p -> properName n0 -> properName n1 ->
  exists objs count,
    compileShaderProgram drv v f st =
    (if okV && okF && statusOnProgram drv
     then int_of_GLuint p else (-1)%Z,
     mkGLState
       (glCalls st
        ++ [Call_glCreateProgram]
        ++ compileShaderCalls drv v GL_VERTEX_SHADER n0
        ++ compileShaderCalls drv f GL_FRAGMENT_SHADER n1
        ++ (if okV && okF then linkStageCalls drv p n0 n1 else []))
       objs count).
Proof.
  intros p n0 n1 okV okF Hp H0 H1.
  pose proof (int_of_properName _ H0) as Hi0.
  pose proof (int_of_properName _ H1) as Hi1.
  unfold properName in Hp, H0, H1.
  unfold compileShaderProgram, glCreateProgram, called.
  unfold glbind at 1. unfold glbind at 1. unfold glret at 1.
  unfold glbind at 1. rewrite compileShader_run by (cbn; fold n0; lia).
  unfold glbind at 1. rewrite compileShader_run by (cbn; fold n1; lia).
  cbn [shadersCreated glCalls shaderObjects]. fold n0 n1 okV okF p.
  unfold linkStageCalls.
  destruct okV, okF; cbn [andb];
    rewrite ?(proj2 (Z.eqb_neq _ _) Hi0), ?(proj2 (Z.eqb_neq _ _) Hi1);
    cbn [orb Z.eqb];
    try (unfold glret; do 2 eexists;
         rewrite <- ?app_assoc, ?app_nil_r; reflexivity).
  unfold glbind, glret, glAttachShader, glLinkProgram, glGetShaderiv,
    glGetShaderInfoLog, glDeleteShader, cout, called.
  rewrite !GLuint_int_GLuint by lia.
  destruct (statusOnProgram drv);
    cbn -[int_of_GLuint String.append]; do 2 eexists;
    rewrite <- ?app_assoc; reflexivity.
Qed.

Lemma compileShaderProgram_run (v f : String.string) (st : GLState) :
  let p := programName drv in
  let n0 := shaderName drv (shadersCreated st) in
  let n1 := shaderName drv (S (shadersCreated st)) in
  let okV := compileStatus drv GL_VERTEX_SHADER (sourceOf drv v) in
  let okF := compileStatus drv GL_FRAGMENT_SHADER (sourceOf drv f) in
  properName p -> properName n0 -> properName n1 ->
  (compileShaderProgram drv v f st).1 =
    (if okV && okF && statusOnProgram drv
     then int_of_GLuint p else (-1)%Z) /\
  glCalls (compileShaderProgram drv v f st).2 =
    glCalls st
    ++ [Call_glCreateProgram]
    ++ compileShaderCalls drv v GL_VERTEX_SHADER n0
    ++ compileShaderCalls drv f GL_FRAGMENT_SHADER n1
    ++ (if okV && okF then linkStageCalls drv p n0 n1 else []).
Proof.
  intros p n0 n1 okV okF Hp H0 H1.
  destruct (compileShaderProgram_pair v f st Hp H0 H1) as (objs & n & ->).
  done.
Qed.

Lemma compileShaderCalls_no_delete (path : String.string) (t : ShaderType)
    (name : Z) :
  filter (fun c => isDelete c = true) (compileShaderCalls drv path t name)
  = [].
Proof.
  unfold compileShaderCalls.
  by destruct (fileContents drv path), (compileStatus drv t _).
Qed.

(** [compileShaderProgram] returns the program exactly when the vertex
    source compiles, the fragment source compiles and the status query
    after linking reports success, and -1 otherwise; the source of a file
    that cannot be opened is the empty string, so a missing file is an
    error only if the driver rejects the empty source. *)
Theorem compileShaderProgram_result (v f : String.string) (st : GLState) :
  properName (programName drv) ->
  properName (shaderName drv (shadersCreated st)) ->
  properName (shaderName drv (S (shadersCreated st))) ->
  (compileShaderProgram drv v f st).1 =
    (if compileStatus drv GL_VERTEX_SHADER (sourceOf drv v)
        && compileStatus drv GL_FRAGMENT_SHADER (sourceOf drv f)
        && statusOnProgram drv
     then int_of_GLuint (programName drv) else (-1)%Z) /\
  ((compileShaderProgram drv v f st).1 = (-1)%Z <->
   compileStatus drv GL_VERTEX_SHADER (sourceOf drv v)
   && compileStatus drv GL_FRAGMENT_SHADER (sourceOf drv f)
   && statusOnProgram drv = false) /\
  (fileContents drv v = None -> sourceOf drv v = String.EmptyString).
Proof.
  intros Hp H0 H1.
  destruct (compileShaderProgram_run v f st Hp H0 H1) as [Hr _].
  split; [exact Hr|]. split.
  - rewrite Hr. pose proof (int_of_properName _ Hp).
    destruct (_ && _ && _); split; intros; (done || lia).
  - unfold sourceOf. by intros ->.
Qed.

(** What [compileShaderProgram] calls: always [glCreateProgram] and then
    the whole of both [compileShader] runs, the fragment shader also after
    the vertex shader has failed; nothing more when a shader failed; and
    [glDeleteShader] on the two shaders, as the last two calls, only on
    success.  On every path that returns -1 no object is deleted. *)
Theorem compileShaderProgram_calls (v f : String.string) (st : GLState) :
  properName (programName drv) ->
  properName (shaderName drv (shadersCreated st)) ->
  properName (shaderName drv (S (shadersCreated st))) ->
  exists rest,
    glCalls (compileShaderProgram drv v f st).2 =
      glCalls st
      ++ [Call_glCreateProgram]
      ++ compileShaderCalls drv v GL_VERTEX_SHADER
           (shaderName drv (shadersCreated st))
      ++ compileShaderCalls drv f GL_FRAGMENT_SHADER
           (shaderName drv (S (shadersCreated st)))
      ++ rest /\
    (compileStatus drv GL_VERTEX_SHADER (sourceOf drv v)
     && compileStatus drv GL_FRAGMENT_SHADER (sourceOf drv f) = false ->
     rest = []) /\
    ((compileShaderProgram drv v f st).1 = (-1)%Z ->
     filter (fun c => isDelete c = true) rest = []) /\
    ((compileShaderProgram drv v f st).1 <> (-1)%Z ->
     exists front,
       rest = front
              ++ [Call_glDeleteShader (shaderName drv (shadersCreated st));
                  Call_glDeleteShader
                    (shaderName drv (S (shadersCreated st)))] /\
       filter (fun c => isDelete c = true) front = []).
Proof.
  intros Hp H0 H1.
  destruct (compileShaderProgram_run v f st Hp H0 H1) as [Hr Hc].
  pose proof (int_of_properName _ Hp) as Hip.
  eexists. split; [exact Hc|]. rewrite Hr.
  destruct (compileStatus drv GL_VERTEX_SHADER (sourceOf drv v)),
    (compileStatus drv GL_FRAGMENT_SHADER (sourceOf drv f));
    cbn [andb]; try (split; [done|split; [done|done]]).
  unfold linkStageCalls. destruct (statusOnProgram drv).
  - split; [done|]. split; [done|]. intros _.
    eexists. split; [reflexivity|done].
  - split; [done|]. split; [done|]. done.
Qed.

End ShaderProperties.

(** * Edge cases of the arithmetic *)

Section FloatEdges.

Variable cfg : @Config IEEE.float IEEE.double.

Lemma noKeys_movement (inp : @TickInput IEEE.double) :
  noKeys inp = true ->
  movementOf inp = mkVector2 (ofZ 0 : IEEE.float) (ofZ 0) /\
  rotationOf inp = (ofZ 0 : IEEE.float).
Proof.
  unfold noKeys, movementOf, rotationOf.
  by destruct (keyW inp), (keyS inp), (keyA inp), (keyD inp),
    (keyRight inp), (keyLeft inp).
Qed.

(** On IEEE floats, a tick with no movement or rotation key held leaves
    the force and the rotation of every entity of finite mass as they
    were, up to a [-0] that becomes [+0], also when the force itself is
    infinite or NaN; gravity and mass are assumed finite. *)
Theorem idle_input_keeps_forces (inp : TickInput) (w : World) (i : nat)
    (e : Entity) :
  noKeys inp = true ->
  isFinite (GRAVITY cfg) = true ->
  isFinite (mass e) = true ->
  entities w !! i = Some e ->
  exists e',
    entities (exec (processInput cfg inp) w) !! i = Some e' /\
    sameUpToZeroSign (x (force e)) (x (force e')) /\
    sameUpToZeroSign (y (force e)) (y (force e')) /\
    sameUpToZeroSign (rotation e) (rotation e').
Proof.
  intros Hkeys Hg Hm Hi.
  destruct (noKeys_movement inp Hkeys) as [Hmv Hrot].
  exists (applyInput cfg (movementOf inp) (rotationOf inp) e). split.
  { apply processInput_lookup. by apply lookup_app_l_Some. }
  rewrite applyInput_force, applyInput_rotation, Hmv, Hrot.
  assert (Hz : exists sg, (ofZ 0 : IEEE.float) = IEEE.mkFloat (S754_zero sg))
    by (by exists false).
  split; [|split].
  - destruct (kinematic e); [by left|]. cbn [x].
    apply fadd_zero_same. by apply fmul_zero_finite.
  - destruct (kinematic e); [by left|]. cbn [y].
    apply fadd_zero_same. apply fmul_zero_finite; [|done].
    apply fmul_zero_finite; [done|]. by apply fneg_finite.
  - destruct (type e); [by left|]. by apply fadd_zero_same.
Qed.

Variable Update : @Entity IEEE.float -> @Entity IEEE.float.
Variable CheckCollisions :
  nat -> list (@Entity IEEE.float) -> list (@Entity IEEE.float).

Local Abbreviation stepping := (stepping cfg Update CheckCollisions).
Local Abbreviation frame := (frame cfg Update CheckCollisions).
Local Abbreviation mainLoop := (mainLoop cfg Update CheckCollisions).

Lemma stepping_at_NaN (env : @Env IEEE.double) (fuel : nat)
    (s : @MainState IEEE.float IEEE.double) :
  deltaTime s = DemoRuns.NaN -> stepping env fuel s = Some s.
Proof. intros Hs. destruct fuel; simpl; by rewrite Hs. Qed.

Lemma frame_at_NaN (env : @Env IEEE.double) (fuel : nat)
    (s : @MainState IEEE.float IEEE.double) :
  deltaTime s = DemoRuns.NaN \/
  glfwGetTime env (S (framesDone s)) = DemoRuns.NaN ->
  frame env fuel s = Some (present env (measureTime cfg env s)) /\
  deltaTime (present env (measureTime cfg env s)) = DemoRuns.NaN.
Proof.
  intros Hs.
  assert (Hm : deltaTime (measureTime cfg env s) = DemoRuns.NaN).
  { cbn [measureTime deltaTime]. destruct Hs as [-> | ->].
    - reflexivity.
    - destruct (deltaTime s) as [[ | | | ]]; reflexivity. }
  unfold frame. by rewrite stepping_at_NaN.
Qed.

Lemma mainLoop_at_NaN (env : @Env IEEE.double) (frames fuel : nat) :
  forall s s' : @MainState IEEE.float IEEE.double,
    deltaTime s = DemoRuns.NaN ->
    mainLoop env frames fuel s = Some s' ->
    ticksDone s' = ticksDone s /\ entities (world s') = entities (world s).
Proof.
  induction frames as [|frames IH]; intros s s' Hs; simpl.
  - destruct (windowShouldClose (world s)); [|done]. by intros [= <-].
  - destruct (windowShouldClose (world s)); [by intros [= <-]|].
    destruct (frame_at_NaN env fuel s (or_introl Hs)) as [-> Hd].
    intros H. destruct (IH _ _ Hd H) as [Ht He].
    destruct (present_entities env (measureTime cfg env s)) as [He' Ht'].
    rewrite Ht, He, He', Ht'. done.
Qed.

(** One NaN reading of the clock stops the simulation for the rest of the
    run: from the frame that reads it on, frames are still presented and
    events polled, but no tick runs, so the entities stay as they are. *)
Theorem nan_clock_stops_simulation (env : @Env IEEE.double)
    (frames fuel : nat) (s s' : @MainState IEEE.float IEEE.double) :
  glfwGetTime env (S (framesDone s)) = DemoRuns.NaN ->
  mainLoop env frames fuel s = Some s' ->
  ticksDone s' = ticksDone s /\ entities (world s') = entities (world s).
Proof.
  intros Hclock. destruct frames as [|frames]; simpl.
  - destruct (windowShouldClose (world s)); [|done]. by intros [= <-].
  - destruct (windowShouldClose (world s)); [by intros [= <-]|].
    destruct (frame_at_NaN env fuel s (or_intror Hclock)) as [-> Hd].
    intros H. destruct (mainLoop_at_NaN env frames fuel _ _ Hd H) as [Ht He].
    destruct (present_entities env (measureTime cfg env s)) as [He' Ht'].
    rewrite Ht, He, He', Ht'. done.
Qed.

End FloatEdges.


(** * The further statements on sample data *)

Lemma frame_leaves_less_than_a_tick_witness :
  exists s',
    frame Demo.cfg Demo.Update Demo.CheckCollisions Demo.slowFrames 10
      (initState Demo.cfg Demo.slowFrames) = Some s' /\
    fge (deltaTime s') (ofZ 1) = false /\
    framesDone s' = 1.
Proof.
  set (d := initState Demo.cfg Demo.slowFrames).
  set (r := frame Demo.cfg Demo.Update Demo.CheckCollisions Demo.slowFrames
              10 d).
  assert (H : r = Some (default d r)) by (vm_compute; reflexivity).
  exists (default d r). split; [exact H|].
  destruct (frame_leaves_less_than_a_tick Demo.cfg Demo.Update
              Demo.CheckCollisions Demo.slowFrames 10 d _ H)
    as (Hg & _ & Hf & _).
  split; [exact Hg|exact Hf].
Defined.

Lemma frame_renders_after_all_ticks_witness :
  exists s' tl,
    frame Demo.cfg Demo.Update Demo.CheckCollisions Demo.slowFrames 10
      (initState Demo.cfg Demo.slowFrames) = Some s' /\
    calls (world s') =
      calls (world (initState Demo.cfg Demo.slowFrames)) ++ tl
      ++ (CallRender <$> seq 0 (length (entities (world s'))))
      ++ [CallSwapBuffers; CallPollEvents] /\
    forallb isTickCall tl = true.
Proof.
  set (d := initState Demo.cfg Demo.slowFrames).
  set (r := frame Demo.cfg Demo.Update Demo.CheckCollisions Demo.slowFrames
              10 d).
  assert (H : r = Some (default d r)) by (vm_compute; reflexivity).
  destruct (frame_renders_after_all_ticks Demo.cfg Demo.Update
              Demo.CheckCollisions
              (fun i es => Entity_CheckCollisions_length Demo.phys i es)
              Demo.slowFrames 10 d _ H) as (tl & Hc & Ht).
  exists (default d r), tl. split; [exact H|]. split; [exact Hc|exact Ht].
Defined.

Lemma close_flag_after_frame_witness :
  exists s',
    frame Demo.cfg Demo.Update Demo.CheckCollisions DemoRuns.clickThenEscape
      10 (initState Demo.cfg DemoRuns.clickThenEscape) = Some s' /\
    ticksDone s' = 3 /\
    windowShouldClose (world s') = true /\
    mainLoop Demo.cfg Demo.Update Demo.CheckCollisions
      DemoRuns.clickThenEscape 7 7 s' = Some s'.
Proof.
  set (d := initState Demo.cfg DemoRuns.clickThenEscape).
  set (r := frame Demo.cfg Demo.Update Demo.CheckCollisions
              DemoRuns.clickThenEscape 10 d).
  assert (H : r = Some (default d r)) by (vm_compute; reflexivity).
  exists (default d r). split; [exact H|].
  split; [vm_compute; reflexivity|].
  assert (Hc : windowShouldClose (world (default d r)) = true)
    by (vm_compute; reflexivity).
  split; [exact Hc|].
  exact (proj2 (close_flag_after_frame Demo.cfg Demo.Update
    Demo.CheckCollisions
    (fun i es => Entity_CheckCollisions_length Demo.phys i es)
    DemoRuns.clickThenEscape 10 d _ H) Hc 7 7).
Defined.

Lemma entity_count_after_run_witness :
  exists s,
    mainLoop Demo.cfg Demo.Update Demo.CheckCollisions
      DemoRuns.clickThenEscape 5 10
      (initState Demo.cfg DemoRuns.clickThenEscape) = Some s /\
    ticksDone s = 3 /\
    clicksBefore DemoRuns.clickThenEscape 3 = 1 /\
    length (entities (world s)) =
      3 + clicksBefore DemoRuns.clickThenEscape (ticksDone s).
Proof.
  set (d := initState Demo.cfg DemoRuns.clickThenEscape).
  set (r := mainLoop Demo.cfg Demo.Update Demo.CheckCollisions
              DemoRuns.clickThenEscape 5 10 d).
  assert (H : r = Some (default d r)) by (vm_compute; reflexivity).
  exists (default d r). split; [exact H|].
  split; [vm_compute; reflexivity|]. split; [reflexivity|].
  exact (proj1 (entity_count_after_run Demo.cfg Demo.Update
    Demo.CheckCollisions
    (fun i es => Entity_CheckCollisions_length Demo.phys i es)
    DemoRuns.clickThenEscape 5 10 _ H)).
Defined.

Lemma main_exit_codes_witness :
  main Demo.cfg Demo.Update Demo.CheckCollisions DemoRuns.noWindow 5 10
    = Some ((-1)%Z, emptyWorld) /\
  ((-1 = -1)%Z /\ @emptyWorld IEEE.float = emptyWorld /\
   windowCreated DemoRuns.noWindow && gladLoaded DemoRuns.noWindow = false
   \/
   ((-1)%Z = 0%Z /\
    windowCreated DemoRuns.noWindow && gladLoaded DemoRuns.noWindow = true /\
    windowShouldClose (@emptyWorld IEEE.float) = true /\
    3 <= length (entities (@emptyWorld IEEE.float)))).
Proof.
  split; [reflexivity|].
  exact (main_exit_codes Demo.cfg Demo.Update Demo.CheckCollisions
    (fun i es => Entity_CheckCollisions_length Demo.phys i es)
    DemoRuns.noWindow 5 10 (-1)%Z emptyWorld eq_refl).
Defined.

Lemma spawned_entity_joins_tick_witness :
  clicked Demo.primaryClick = true /\
  calls (exec (tick Demo.cfg Demo.Update Demo.CheckCollisions
                 Demo.primaryClick) Demo.scene) =
    calls Demo.scene ++ tickCalls 5 /\
  length (entities (exec (tick Demo.cfg Demo.Update Demo.CheckCollisions
                            Demo.primaryClick) Demo.scene)) = 5.
Proof.
  split; [reflexivity|].
  exact (proj2 (spawned_entity_joins_tick Demo.cfg Demo.Update
    Demo.CheckCollisions
    (fun i es => Entity_CheckCollisions_length Demo.phys i es)
    Demo.primaryClick Demo.scene eq_refl)).
Defined.

Lemma prepareCircleModel_mesh_witness :
  exists m,
    prepareCircleModel (F := IEEE.float) (fun t => t) (fun t => t)
      (fun t => t) 20 21 = Some m /\
    vertexCount m = 22%Z /\
    Z.of_nat (length (indices m)) = 63%Z.
Proof.
  destruct (prepareCircleModel_mesh (F := IEEE.float) (fun t => t)
              (fun t => t) (fun t => t) 20 21
              ltac:(lia) ltac:(lia) ltac:(simpl; lia))
    as (m & Hm & _ & _ & Hv & Hi).
  exists m. split; [exact Hm|]. split; [exact Hv|exact Hi].
Defined.

Lemma prepareCircleModel_last_index_out_of_range_witness :
  exists m front,
    prepareCircleModel (F := IEEE.float) (fun t => t) (fun t => t)
      (fun t => t) 20 21 = Some m /\
    indices m = (front ++ [0; vertexCount m - 1; vertexCount m])%Z /\
    Forall (fun i => (0 <= i < vertexCount m)%Z) front.
Proof.
  destruct (prepareCircleModel_last_index_out_of_range (F := IEEE.float)
              (fun t => t) (fun t => t) (fun t => t) 20 21
              ltac:(lia) ltac:(lia) ltac:(simpl; lia))
    as (m & front & Hm & Hi & Hf & _).
  exists m, front. split; [exact Hm|]. split; [exact Hi|exact Hf].
Defined.

(** The circle mesh for [TRIANGLE_RESOLUTION = 3]: five vertices, and the
    index 5 in the last triangle. *)
Example circle_mesh_indices :
  indices <$> prepareCircleModel (F := IEEE.float) (fun t => t) (fun t => t)
                (fun t => t) 3 4
  = Some [0; 1; 2; 0; 2; 3; 0; 3; 4; 0; 4; 5]%Z.
Proof. vm_compute. reflexivity. Qed.

Lemma compileShaderProgram_result_witness :
  Shaders.properName (Shaders.programName Shaders.sampleDriver) /\
  Shaders.fileContents Shaders.sampleDriver Shaders.fragmentPath = None /\
  (Shaders.compileShaderProgram Shaders.sampleDriver Shaders.vertexPath
     Shaders.fragmentPath Shaders.freshContext).1 = (-1)%Z.
Proof.
  split; [unfold Shaders.properName; simpl; lia|].
  split; [reflexivity|].
  refine (proj2 (proj1 (proj2 (compileShaderProgram_result
    Shaders.sampleDriver Shaders.vertexPath Shaders.fragmentPath
    Shaders.freshContext _ _ _))) eq_refl);
    unfold Shaders.properName; simpl; lia.
Defined.

Lemma compileShaderProgram_calls_witness :
  (Shaders.compileShaderProgram Shaders.goodDriver Shaders.vertexPath
     Shaders.fragmentPath Shaders.freshContext).1 <> (-1)%Z /\
  exists rest front,
    Shaders.glCalls
      (Shaders.compileShaderProgram Shaders.goodDriver Shaders.vertexPath
         Shaders.fragmentPath Shaders.freshContext).2 =
      Shaders.glCalls Shaders.freshContext
      ++ [Shaders.Call_glCreateProgram]
      ++ Shaders.compileShaderCalls Shaders.goodDriver Shaders.vertexPath
           Shaders.GL_VERTEX_SHADER 2
      ++ Shaders.compileShaderCalls Shaders.goodDriver Shaders.fragmentPath
           Shaders.GL_FRAGMENT_SHADER 3
      ++ rest /\
    rest = front ++ [Shaders.Call_glDeleteShader 2;
                     Shaders.Call_glDeleteShader 3].
Proof.
  assert (Hok : (Shaders.compileShaderProgram Shaders.goodDriver
                   Shaders.vertexPath Shaders.fragmentPath
                   Shaders.freshContext).1 <> (-1)%Z)
    by (vm_compute; discriminate).
  split; [exact Hok|].
  destruct (compileShaderProgram_calls Shaders.goodDriver Shaders.vertexPath
              Shaders.fragmentPath Shaders.freshContext
              ltac:(unfold Shaders.properName; simpl; lia)
              ltac:(unfold Shaders.properName; simpl; lia)
              ltac:(unfold Shaders.properName; simpl; lia))
    as (rest & Hc & _ & _ & Hs).
  destruct (Hs Hok) as (front & Hfront & _).
  exists rest, front. split; [exact Hc|exact Hfront].
Defined.

(** With [main.fs] missing, the fragment shader is compiled from the empty
    source after the vertex shader has compiled, and nothing is deleted. *)
Example missing_fragment_file_calls :
  Shaders.glCalls
    (Shaders.compileShaderProgram Shaders.sampleDriver Shaders.vertexPath
       Shaders.fragmentPath Shaders.freshContext).2
  = [Shaders.Call_glCreateProgram]
    ++ Shaders.compileShaderCalls Shaders.sampleDriver Shaders.vertexPath
         Shaders.GL_VERTEX_SHADER 2
    ++ Shaders.compileShaderCalls Shaders.sampleDriver Shaders.fragmentPath
         Shaders.GL_FRAGMENT_SHADER 3.
Proof. vm_compute. reflexivity. Qed.

Lemma idle_input_keeps_forces_witness :
  noKeys Demo.idle = true /\
  isFinite (GRAVITY Demo.cfg) = true /\
  isFinite (mass Demo.ball) = true /\
  entities Demo.scene !! 0 = Some Demo.ball /\
  exists e',
    entities (exec (processInput Demo.cfg Demo.idle) Demo.scene) !! 0
      = Some e' /\
    sameUpToZeroSign (y (force Demo.ball)) (y (force e')).
Proof.
  split; [reflexivity|]. split; [reflexivity|]. split; [reflexivity|].
  split; [reflexivity|].
  destruct (idle_input_keeps_forces Demo.cfg Demo.idle Demo.scene 0 Demo.ball
              eq_refl eq_refl eq_refl eq_refl) as (e' & He' & _ & Hy & _).
  exists e'. split; [exact He'|exact Hy].
Defined.

Lemma nan_clock_stops_simulation_witness :
  glfwGetTime DemoRuns.brokenClock 1 = DemoRuns.NaN /\
  exists s',
    mainLoop Demo.cfg Demo.Update Demo.CheckCollisions DemoRuns.brokenClock
      5 10 (initState Demo.cfg DemoRuns.brokenClock) = Some s' /\
    framesDone s' = 3 /\
    ticksDone s' = 0.
Proof.
  split; [reflexivity|].
  set (d := initState Demo.cfg DemoRuns.brokenClock).
  set (r := mainLoop Demo.cfg Demo.Update Demo.CheckCollisions
              DemoRuns.brokenClock 5 10 d).
  assert (H : r = Some (default d r)) by (vm_compute; reflexivity).
  exists (default d r). split; [exact H|].
  split; [vm_compute; reflexivity|].
  exact (proj1 (nan_clock_stops_simulation Demo.cfg Demo.Update
    Demo.CheckCollisions DemoRuns.brokenClock 5 10 d _ eq_refl H)).
Defined.

Lemma stepping_diverges_at_infinity_witness :
  deltaTime DemoRuns.overflowed = IEEE.mkDouble (S754_infinity false) /\
  stepping Demo.cfg Demo.Update Demo.CheckCollisions Demo.slowFrames 1000
    DemoRuns.overflowed = None.
Proof.
  split; [reflexivity|].
  exact (stepping_diverges_at_infinity Demo.cfg Demo.Update
    Demo.CheckCollisions Demo.slowFrames 1000 DemoRuns.overflowed eq_refl).
Defined.


